(** * krew: the [upgrade] command (cmd/krew/cmd/upgrade.go)

    A shallow embedding of [upgradeCmd.RunE]: the resolution of the
    plugin names to upgrade, the loop over them with its two error
    policies, and the closing summary.  The packages the command calls
    ([installation], [indexscanner], [internal], [fmt]) are collaborators
    and are taken as an interface. *)

From Stdlib Require Import ZArith Lia Ascii String.
From stdpp Require Import gmap strings list.

Local Open Scope string_scope.
Local Open Scope list_scope.
Local Open Scope Z_scope.

(** ** Go's [int] *)

Module GoInt.

(** [int] on the 64-bit platforms krew is built for. *)
Definition bits : Z := 64.
Definition max_int : Z := 2 ^ (bits - 1) - 1.
Definition min_int : Z := - 2 ^ (bits - 1).

(** Two's complement wrap-around of signed arithmetic. *)
Definition wrap (z : Z) : Z := (z + 2 ^ (bits - 1)) mod 2 ^ bits - 2 ^ (bits - 1).

(** [n++] *)
Definition incr (n : Z) : Z := wrap (n + 1).

End GoInt.

(** ** Errors *)

(** The error values the command sees or builds.  [ErrIsAlreadyUpgraded]
    is the sentinel of package [installation], compared by identity.
    [ExtError] stands for any other error a collaborator hands back: the
    command only ever asks it whether [os.IsNotExist] holds and what its
    text is.  [Wrapf] and [Errorf] are the two constructors of
    github.com/pkg/errors the command uses. *)
Inductive error : Type :=
  | ErrIsAlreadyUpgraded
  | ExtError (notExist : bool) (msg : string)
  | Wrapf (cause : error) (msg : string)
  | Errorf (msg : string).

(** [os.IsNotExist]: looks at the error itself, not through the wrappers
    of pkg/errors. *)
Definition IsNotExist (err : error) : bool :=
  match err with
  | ExtError b _ => b
  | _ => false
  end.

(** [err == installation.ErrIsAlreadyUpgraded] *)
Definition isAlreadyUpgraded (err : error) : bool :=
  match err with
  | ErrIsAlreadyUpgraded => true
  | _ => false
  end.

(** ** The collaborators *)

(** What the command calls outside of this file.  [World] is everything
    the collaborators read and write (receipts, index, installed
    binaries); only [Upgrade] changes it.  [LoadPluginByName] has Go's
    shape: a plugin and an error, the plugin being meaningful when the
    error is nil. *)
Class Env : Type := {
  World : Type;
  Receipt : Type;
  Plugin : Type;
  Name : Plugin -> string;
  ListInstalledPlugins : World -> gmap string Receipt * option error;
  LoadPluginByName : World -> string -> Plugin * option error;
  Upgrade : World -> Plugin -> World * option error;
  (** the text of [ErrIsAlreadyUpgraded] *)
  already_upgraded_text : string;
  (** what [fmt] prints for the verb [%q] *)
  Quote : string -> string;
}.

(** What the command does that can be observed, in the order it does it. *)
Inductive effect `{Env} : Type :=
  | CallListInstalledPlugins
  | CallLoadPluginByName (name : string)
  | CallUpgrade (plugin : Plugin)
  | Stderr (text : string)
  | PrintSecurityNotice (name : string).

Definition nl : string := String "010"%char EmptyString.

Section Command.

Context `{E : Env}.

(** [err.Error()], which is what [%v] prints. *)
Fixpoint Error (err : error) : string :=
  match err with
  | ErrIsAlreadyUpgraded => already_upgraded_text
  | ExtError _ msg => msg
  | Wrapf cause msg => msg +:+ ": " +:+ Error cause
  | Errorf msg => msg
  end.

(** *** The lines written to the standard error stream *)

Definition msg_upgrading (name : string) : string :=
  "Upgrading plugin: " +:+ name +:+ nl.
Definition msg_skipping (name : string) : string :=
  "Skipping plugin " +:+ name +:+ ", it is already on the newest version" +:+ nl.
Definition msg_failed (name : string) (err : error) : string :=
  "WARNING: failed to upgrade plugin " +:+ Quote name
    +:+ ", skipping (error: " +:+ Error err +:+ ")" +:+ nl.
Definition msg_upgraded (name : string) : string :=
  "Upgraded plugin: " +:+ name +:+ nl.
Definition msg_summary : string :=
  "WARNING: Some plugins failed to upgrade, check logs above." +:+ nl.

(** *** The errors returned *)

Definition err_enumerate (err : error) : error :=
  Wrapf err "failed to find all installed versions".
Definition err_load (name : string) (err : error) : error :=
  Wrapf err ("failed to load the plugin manifest for plugin " +:+ name).
Definition err_not_in_index (name : string) : error :=
  Errorf ("plugin " +:+ Quote name +:+ " does not exist in the plugin index").
Definition err_upgrade (name : string) (err : error) : error :=
  Wrapf err ("failed to upgrade plugin " +:+ Quote name).

(** *** State *)

(** The two flags of [RunE]. *)
Record Mode : Type := { ignoreUpgraded : bool; skipErrors : bool }.

Definition allMode : Mode := {| ignoreUpgraded := true; skipErrors := true |}.
Definition explicitMode : Mode := {| ignoreUpgraded := false; skipErrors := false |}.

(** The collaborators' world, the counter [nErrors], and what has been
    done so far. *)
Record St : Type := { world : World; nErrors : Z; trace : list effect }.

Definition init (w : World) : St := {| world := w; nErrors := 0; trace := [] |}.

Definition emit (e : effect) (s : St) : St :=
  {| world := world s; nErrors := nErrors s; trace := trace s ++ [e] |}.
Definition set_world (w : World) (s : St) : St :=
  {| world := w; nErrors := nErrors s; trace := trace s |}.
Definition count_error (s : St) : St :=
  {| world := world s; nErrors := GoInt.incr (nErrors s); trace := trace s |}.

(** How one iteration of the loop ends: it goes on to the next name
    ([continue], or the end of the body), or [RunE] returns. *)
Inductive flow : Type :=
  | Continue
  | Return (err : error).

(** *** Lines 46-61: the names to upgrade and the flags

    [order] is the sequence in which [range installed] yields the keys
    of the map on this run, which is what the appends of lines 53-55
    leave in [pluginNames]; [range_order] below says which sequences
    these can be.  With arguments the map is never asked for. *)
Definition resolve (order : list string) (w : World) (args : list string)
  : St * (error + list string * Mode) :=
  if (length args =? 0)%nat then
    let s := emit CallListInstalledPlugins (init w) in
    match ListInstalledPlugins w with
    | (_, Some err) => (s, inl (err_enumerate err))
    | (installed, None) => (s, inr (order, allMode))
    end
  else (init w, inr (args, explicitMode)).

(** Go visits every key of a map once, in an order it leaves
    unspecified and that may change from one [range] to the next. *)
Definition range_order (installed : gmap string Receipt) (order : list string) : Prop :=
  order ≡ₚ (map_to_list installed).*1.

(** *** Lines 65-91: the body of the loop *)
Definition loopBody (mode : Mode) (name : string) (s : St) : St * flow :=
  let s := emit (CallLoadPluginByName name) s in
  let '(plugin, err) := LoadPluginByName (world s) name in
  (* lines 66-72 *)
  let fatal :=
    match err with
    | Some e =>
        if negb (IsNotExist e) then Some (err_load name e)
        else if negb (skipErrors mode) then Some (err_not_in_index name)
        else None
    | None => None
    end in
  match fatal with
  | Some f => (s, Return f)
  | None =>
      (* lines 74-81 *)
      let '(s, err, skipped) :=
        match err with
        | None =>
            let s := emit (Stderr (msg_upgrading name)) s in
            let s := emit (CallUpgrade plugin) s in
            let '(w, err) := Upgrade (world s) plugin in
            let s := set_world w s in
            match err with
            | Some e =>
                if ignoreUpgraded mode && isAlreadyUpgraded e
                then (emit (Stderr (msg_skipping name)) s, err, true)
                else (s, err, false)
            | None => (s, err, false)
            end
        | Some _ => (s, err, false)
        end in
      if skipped then (s, Continue)
      else
        (* lines 82-91 *)
        match err with
        | Some e =>
            let s := count_error s in
            if skipErrors mode
            then (emit (Stderr (msg_failed name e)) s, Continue)
            else (s, Return (err_upgrade name e))
        | None =>
            let s := emit (Stderr (msg_upgraded name)) s in
            (emit (PrintSecurityNotice (Name plugin)) s, Continue)
        end
  end.

(** *** Lines 64-92: [for _, name := range pluginNames] *)
Fixpoint rangeLoop (mode : Mode) (pluginNames : list string) (s : St)
  : St * option error :=
  match pluginNames with
  | [] => (s, None)
  | name :: rest =>
      match loopBody mode name s with
      | (s', Continue) => rangeLoop mode rest s'
      | (s', Return err) => (s', Some err)
      end
  end.

(** *** Lines 93-96 *)
Definition finish (s : St) : St * option error :=
  if 0 <? nErrors s then (emit (Stderr msg_summary) s, None) else (s, None).

(** *** [upgradeCmd.RunE] *)
Definition RunE (order : list string) (w : World) (args : list string)
  : St * option error :=
  match resolve order w args with
  | (s, inl err) => (s, Some err)
  | (s, inr (pluginNames, mode)) =>
      match rangeLoop mode pluginNames s with
      | (s', Some err) => (s', Some err)
      | (s', None) => finish s'
      end
  end.

(** The state in which [Upgrade] has just answered. *)
Definition after_upgrade (name : string) (plugin : Plugin) (w : World) (s : St) : St :=
  set_world w
    (emit (CallUpgrade plugin)
       (emit (Stderr (msg_upgrading name))
          (emit (CallLoadPluginByName name) s))).

(** The seven ways through the body, as a relation between the state
    before and the state and flow after. *)
Inductive step (mode : Mode) (name : string) (s : St) : St -> flow -> Prop :=
  | step_load_fault plugin e :
      LoadPluginByName (world s) name = (plugin, Some e) ->
      IsNotExist e = false ->
      step mode name s (emit (CallLoadPluginByName name) s) (Return (err_load name e))
  | step_not_found_fatal plugin e :
      LoadPluginByName (world s) name = (plugin, Some e) ->
      IsNotExist e = true ->
      skipErrors mode = false ->
      step mode name s (emit (CallLoadPluginByName name) s) (Return (err_not_in_index name))
  | step_not_found_skipped plugin e :
      LoadPluginByName (world s) name = (plugin, Some e) ->
      IsNotExist e = true ->
      skipErrors mode = true ->
      step mode name s
        (emit (Stderr (msg_failed name e))
           (count_error (emit (CallLoadPluginByName name) s))) Continue
  | step_upgraded plugin w :
      LoadPluginByName (world s) name = (plugin, None) ->
      Upgrade (world s) plugin = (w, None) ->
      step mode name s
        (emit (PrintSecurityNotice (Name plugin))
           (emit (Stderr (msg_upgraded name)) (after_upgrade name plugin w s))) Continue
  | step_already_skipped plugin w e :
      LoadPluginByName (world s) name = (plugin, None) ->
      Upgrade (world s) plugin = (w, Some e) ->
      ignoreUpgraded mode && isAlreadyUpgraded e = true ->
      step mode name s
        (emit (Stderr (msg_skipping name)) (after_upgrade name plugin w s)) Continue
  | step_failed_skipped plugin w e :
      LoadPluginByName (world s) name = (plugin, None) ->
      Upgrade (world s) plugin = (w, Some e) ->
      ignoreUpgraded mode && isAlreadyUpgraded e = false ->
      skipErrors mode = true ->
      step mode name s
        (emit (Stderr (msg_failed name e))
           (count_error (after_upgrade name plugin w s))) Continue
  | step_failed_fatal plugin w e :
      LoadPluginByName (world s) name = (plugin, None) ->
      Upgrade (world s) plugin = (w, Some e) ->
      ignoreUpgraded mode && isAlreadyUpgraded e = false ->
      skipErrors mode = false ->
      step mode name s
        (count_error (after_upgrade name plugin w s)) (Return (err_upgrade name e)).

(** ** What the collaborators answer

    The five ways the processing of one name can turn out, read off the
    answers of [LoadPluginByName] and [Upgrade] in a given world.  This
    is vocabulary for the statements below; the command itself is
    [loopBody]. *)
Inductive outcome : Type :=
  | Upgraded
  | AlreadyCurrent
  | UpgradeFailure
  | NotFound
  | LoadFault.

Definition classify (w : World) (name : string) : outcome :=
  match LoadPluginByName w name with
  | (_, Some e) => if IsNotExist e then NotFound else LoadFault
  | (plugin, None) =>
      match Upgrade w plugin with
      | (_, None) => Upgraded
      | (_, Some e) => if isAlreadyUpgraded e then AlreadyCurrent else UpgradeFailure
      end
  end.

(** ** Reading a trace *)

Definition loaded (tr : list effect) : list string :=
  omap (fun e => match e with CallLoadPluginByName n => Some n | _ => None end) tr.
Definition stderr (tr : list effect) : list string :=
  omap (fun e => match e with Stderr t => Some t | _ => None end) tr.
Definition notices (tr : list effect) : list string :=
  omap (fun e => match e with PrintSecurityNotice n => Some n | _ => None end) tr.
Definition upgrades (tr : list effect) : list Plugin :=
  omap (fun e => match e with CallUpgrade p => Some p | _ => None end) tr.

Definition quiet (tl : list effect) : Prop :=
  ~ In (Stderr msg_summary) tl /\ ~ In CallListInstalledPlugins tl.

(** The lines a successful upgrade of [name] writes. *)
Definition success_lines (name : string) : list string :=
  [msg_upgrading name; msg_upgraded name].

End Command.

(** ** A small world to run the command in

    The index is a table from names to a manifest, the receipts a map
    from names to the installed version. *)
Module Demo.

Inductive entry : Type :=
  | Unreadable                       (* the manifest file cannot be read *)
  | Manifest (latest : nat) (broken : bool).  (* broken: the download fails *)

Record manifest : Type := { m_name : string; m_latest : nat; m_broken : bool }.

Record state : Type := {
  index : list (string * entry);
  receipts : gmap string nat;
}.

Fixpoint find (name : string) (ix : list (string * entry)) : option entry :=
  match ix with
  | [] => None
  | (n, e) :: ix' => if String.eqb n name then Some e else find name ix'
  end.

Definition zero : manifest := {| m_name := EmptyString; m_latest := 0; m_broken := false |}.

Definition load (w : state) (name : string) : manifest * option error :=
  match find name (index w) with
  | None => (zero, Some (ExtError true ("open " +:+ name +:+ ".yaml: no such file or directory")))
  | Some Unreadable => (zero, Some (ExtError false ("open " +:+ name +:+ ".yaml: permission denied")))
  | Some (Manifest v b) => ({| m_name := name; m_latest := v; m_broken := b |}, None)
  end.

Definition upgrade (w : state) (p : manifest) : state * option error :=
  match receipts w !! m_name p with
  | None => (w, Some (ExtError false "plugin is not installed"))
  | Some cur =>
      if (cur <? m_latest p)%nat then
        if m_broken p then (w, Some (ExtError false "download failed"))
        else ({| index := index w; receipts := <[m_name p := m_latest p]> (receipts w) |}, None)
      else (w, Some ErrIsAlreadyUpgraded)
  end.

Definition dq : string := String "034"%char EmptyString.

Definition env : Env := {|
  World := state;
  Receipt := nat;
  Plugin := manifest;
  Name := m_name;
  ListInstalledPlugins := fun w => (receipts w, None);
  LoadPluginByName := load;
  Upgrade := upgrade;
  already_upgraded_text := "can't upgrade, the newest version is already installed";
  Quote := fun s => dq +:+ s +:+ dq;
|}.

(** [foo], [a], [b] and [cur] are installed; [foo] and [b] have a newer
    version, the download of [a] fails, [cur] is up to date, [bar] is not
    in the index and the manifest of [locked] cannot be read. *)
Definition w0 : state := {|
  index := [("foo", Manifest 2 false); ("a", Manifest 2 true); ("b", Manifest 3 false);
            ("cur", Manifest 1 false); ("locked", Unreadable)];
  receipts := {[ "foo" := 1%nat; "a" := 1%nat; "b" := 1%nat; "cur" := 1%nat ]};
|}.

(** Only [a] and [b] are installed. *)
Definition w_ab : state := {|
  index := index w0;
  receipts := {[ "a" := 1%nat; "b" := 1%nat ]};
|}.

End Demo.

(** * Facts *)

(** ** Arithmetic of [int] *)

Lemma GoInt_wrap_small z :
  GoInt.min_int <= z <= GoInt.max_int -> GoInt.wrap z = z.
Proof.
  unfold GoInt.wrap, GoInt.min_int, GoInt.max_int, GoInt.bits. intros Hz.
  rewrite Z.mod_small; lia.
Qed.

Lemma GoInt_incr_small n : 0 <= n < GoInt.max_int -> GoInt.incr n = n + 1.
Proof.
  intros Hn. unfold GoInt.incr. apply GoInt_wrap_small.
  unfold GoInt.min_int, GoInt.max_int, GoInt.bits in *. lia.
Qed.

(** ** Errors *)

Lemma isAlreadyUpgraded_true err :
  isAlreadyUpgraded err = true <-> err = ErrIsAlreadyUpgraded.
Proof. destruct err; simpl; split; congruence. Qed.

Lemma isAlreadyUpgraded_false err :
  isAlreadyUpgraded err = false <-> err <> ErrIsAlreadyUpgraded.
Proof. destruct err; simpl; split; congruence. Qed.

Section Facts.

Context `{E : Env}.

Lemma loaded_app tr1 tr2 : loaded (tr1 ++ tr2) = loaded tr1 ++ loaded tr2.
Proof. apply omap_app. Qed.
Lemma stderr_app tr1 tr2 : stderr (tr1 ++ tr2) = stderr tr1 ++ stderr tr2.
Proof. apply omap_app. Qed.
Lemma notices_app tr1 tr2 : notices (tr1 ++ tr2) = notices tr1 ++ notices tr2.
Proof. apply omap_app. Qed.
Lemma upgrades_app tr1 tr2 : upgrades (tr1 ++ tr2) = upgrades tr1 ++ upgrades tr2.
Proof. apply omap_app. Qed.

(** ** One iteration, outcome by outcome *)

Ltac run_body :=
  unfold loopBody; cbn [world emit set_world count_error];
  repeat match goal with
    | H : LoadPluginByName _ _ = _ |- _ => rewrite H
    | H : Upgrade _ _ = _ |- _ => rewrite H
    | H : IsNotExist _ = _ |- _ => rewrite H
    | H : isAlreadyUpgraded _ = _ |- _ => rewrite H
    | H : skipErrors _ = _ |- _ => rewrite H
    | H : ignoreUpgraded _ = _ |- _ => rewrite H
    | _ => progress cbn [negb andb world emit set_world count_error fst snd]
    end.

Lemma loopBody_load_fault mode name s plugin e :
  LoadPluginByName (world s) name = (plugin, Some e) ->
  IsNotExist e = false ->
  loopBody mode name s
  = (emit (CallLoadPluginByName name) s, Return (err_load name e)).
Proof. intros Hl Hn. run_body. reflexivity. Qed.

Lemma loopBody_not_found_fatal mode name s plugin e :
  LoadPluginByName (world s) name = (plugin, Some e) ->
  IsNotExist e = true ->
  skipErrors mode = false ->
  loopBody mode name s
  = (emit (CallLoadPluginByName name) s, Return (err_not_in_index name)).
Proof. intros Hl Hn Hs. run_body. reflexivity. Qed.

Lemma loopBody_not_found_skipped mode name s plugin e :
  LoadPluginByName (world s) name = (plugin, Some e) ->
  IsNotExist e = true ->
  skipErrors mode = true ->
  loopBody mode name s
  = (emit (Stderr (msg_failed name e))
       (count_error (emit (CallLoadPluginByName name) s)), Continue).
Proof. intros Hl Hn Hs. run_body. reflexivity. Qed.

Lemma loopBody_upgraded mode name s plugin w :
  LoadPluginByName (world s) name = (plugin, None) ->
  Upgrade (world s) plugin = (w, None) ->
  loopBody mode name s
  = (emit (PrintSecurityNotice (Name plugin))
       (emit (Stderr (msg_upgraded name)) (after_upgrade name plugin w s)), Continue).
Proof. intros Hl Hu. run_body. reflexivity. Qed.

Lemma loopBody_already_skipped mode name s plugin w e :
  LoadPluginByName (world s) name = (plugin, None) ->
  Upgrade (world s) plugin = (w, Some e) ->
  ignoreUpgraded mode && isAlreadyUpgraded e = true ->
  loopBody mode name s
  = (emit (Stderr (msg_skipping name)) (after_upgrade name plugin w s), Continue).
Proof.
  intros Hl Hu Hi. unfold loopBody; cbn [world emit set_world].
  rewrite Hl; cbn [world emit]. rewrite Hu, Hi. reflexivity.
Qed.

Lemma loopBody_failed_skipped mode name s plugin w e :
  LoadPluginByName (world s) name = (plugin, None) ->
  Upgrade (world s) plugin = (w, Some e) ->
  ignoreUpgraded mode && isAlreadyUpgraded e = false ->
  skipErrors mode = true ->
  loopBody mode name s
  = (emit (Stderr (msg_failed name e))
       (count_error (after_upgrade name plugin w s)), Continue).
Proof.
  intros Hl Hu Hi Hs. unfold loopBody; cbn [world emit set_world].
  rewrite Hl; cbn [world emit]. rewrite Hu, Hi, Hs. reflexivity.
Qed.

Lemma loopBody_failed_fatal mode name s plugin w e :
  LoadPluginByName (world s) name = (plugin, None) ->
  Upgrade (world s) plugin = (w, Some e) ->
  ignoreUpgraded mode && isAlreadyUpgraded e = false ->
  skipErrors mode = false ->
  loopBody mode name s
  = (count_error (after_upgrade name plugin w s), Return (err_upgrade name e)).
Proof.
  intros Hl Hu Hi Hs. unfold loopBody; cbn [world emit set_world].
  rewrite Hl; cbn [world emit]. rewrite Hu, Hi, Hs. reflexivity.
Qed.

Lemma loopBody_step mode name s :
  step mode name s (loopBody mode name s).1 (loopBody mode name s).2.
Proof.
  destruct (LoadPluginByName (world s) name) as [plugin [e|]] eqn:Hl.
  - destruct (IsNotExist e) eqn:Hn.
    + destruct (skipErrors mode) eqn:Hs.
      * rewrite (loopBody_not_found_skipped _ _ _ _ _ Hl Hn Hs).
        eapply step_not_found_skipped; eassumption.
      * rewrite (loopBody_not_found_fatal _ _ _ _ _ Hl Hn Hs).
        eapply step_not_found_fatal; eassumption.
    + rewrite (loopBody_load_fault mode _ _ _ _ Hl Hn).
      eapply step_load_fault; eassumption.
  - destruct (Upgrade (world s) plugin) as [w [e|]] eqn:Hu.
    + destruct (ignoreUpgraded mode && isAlreadyUpgraded e) eqn:Hi.
      * rewrite (loopBody_already_skipped _ _ _ _ _ _ Hl Hu Hi).
        eapply step_already_skipped; eassumption.
      * destruct (skipErrors mode) eqn:Hs.
        -- rewrite (loopBody_failed_skipped _ _ _ _ _ _ Hl Hu Hi Hs).
           eapply step_failed_skipped; eassumption.
        -- rewrite (loopBody_failed_fatal _ _ _ _ _ _ Hl Hu Hi Hs).
           eapply step_failed_fatal; eassumption.
    + rewrite (loopBody_upgraded mode _ _ _ _ Hl Hu).
      eapply step_upgraded; eassumption.
Qed.

Lemma loopBody_step_eq mode name s s' f :
  loopBody mode name s = (s', f) -> step mode name s s' f.
Proof. intros H. pose proof (loopBody_step mode name s) as Hs. rewrite H in Hs. exact Hs. Qed.

(** ** The loop *)

Lemma rangeLoop_cons_continue mode name rest s s' :
  loopBody mode name s = (s', Continue) ->
  rangeLoop mode (name :: rest) s = rangeLoop mode rest s'.
Proof. intros H. simpl. rewrite H. reflexivity. Qed.

Lemma rangeLoop_cons_return mode name rest s s' err :
  loopBody mode name s = (s', Return err) ->
  rangeLoop mode (name :: rest) s = (s', Some err).
Proof. intros H. simpl. rewrite H. reflexivity. Qed.

Lemma rangeLoop_app mode pre post s :
  rangeLoop mode (pre ++ post) s =
  match rangeLoop mode pre s with
  | (s', None) => rangeLoop mode post s'
  | (s', Some err) => (s', Some err)
  end.
Proof.
  revert s. induction pre as [|name pre IH]; intros s; simpl.
  - reflexivity.
  - destruct (loopBody mode name s) as [s' [|err]]; [apply IH | reflexivity].
Qed.

Lemma rangeLoop_reach mode pre post s0 s :
  rangeLoop mode pre s0 = (s, None) ->
  rangeLoop mode (pre ++ post) s0 = rangeLoop mode post s.
Proof. intros H. rewrite rangeLoop_app, H. reflexivity. Qed.

(** *** The lines of the loop are not the summary line *)

Ltac clash := intros H; cbv [String.append msg_summary nl] in H; discriminate H.

Lemma msg_upgrading_not_summary name : msg_upgrading name <> msg_summary.
Proof. unfold msg_upgrading. clash. Qed.
Lemma msg_upgraded_not_summary name : msg_upgraded name <> msg_summary.
Proof. unfold msg_upgraded. clash. Qed.
Lemma msg_skipping_not_summary name : msg_skipping name <> msg_summary.
Proof. unfold msg_skipping. clash. Qed.
Lemma msg_failed_not_summary name e : msg_failed name e <> msg_summary.
Proof. unfold msg_failed. clash. Qed.

(** *** What an iteration adds to the trace and to the counter *)

Ltac norm_trace :=
  cbn [trace world nErrors emit set_world count_error after_upgrade];
  rewrite <- ?app_assoc; cbn [app].

Lemma quiet_nil : quiet [].
Proof. split; intros []. Qed.

Lemma quiet_app tl1 tl2 : quiet tl1 -> quiet tl2 -> quiet (tl1 ++ tl2).
Proof.
  intros [H1 H1'] [H2 H2']. split; intros H; apply in_app_or in H; tauto.
Qed.

Lemma step_trace mode name s s' f :
  step mode name s s' f ->
  exists tl, trace s' = trace s ++ CallLoadPluginByName name :: tl
             /\ loaded tl = [] /\ quiet tl.
Proof.
  intros H; destruct H; eexists; (split; [norm_trace; reflexivity|]);
    (split; [reflexivity|]); split; simpl; intros H';
    repeat (destruct H' as [H'|H']; [try discriminate H'; injection H' as H'|]);
    try contradiction;
    first [ eapply msg_upgrading_not_summary | eapply msg_upgraded_not_summary
          | eapply msg_skipping_not_summary | eapply msg_failed_not_summary ];
    eassumption.
Qed.

Lemma step_counter mode name s s' f :
  step mode name s s' f ->
  nErrors s' = nErrors s \/ nErrors s' = GoInt.incr (nErrors s).
Proof. intros H; destruct H; cbn; auto. Qed.

Lemma step_counter_bound mode name s s' f :
  step mode name s s' f ->
  0 <= nErrors s < GoInt.max_int ->
  nErrors s <= nErrors s' <= nErrors s + 1.
Proof.
  intros H Hb. destruct (step_counter _ _ _ _ _ H) as [-> | ->]; [lia|].
  rewrite GoInt_incr_small by assumption. lia.
Qed.

Lemma rangeLoop_trace mode names s s' r :
  rangeLoop mode names s = (s', r) ->
  exists tl, trace s' = trace s ++ tl /\ quiet tl
             /\ loaded tl `prefix_of` names
             /\ (r = None -> loaded tl = names).
Proof.
  revert s. induction names as [|name rest IH]; intros s H; simpl in H.
  - injection H as <- <-. exists []. rewrite app_nil_r.
    repeat split; auto using quiet_nil; intros [].
  - destruct (loopBody mode name s) as [s1 f] eqn:Hb.
    apply loopBody_step_eq in Hb.
    destruct (step_trace _ _ _ _ _ Hb) as (tl1 & Ht1 & Hl1 & Hq1).
    assert (Hq : quiet (CallLoadPluginByName name :: tl1)).
    { destruct Hq1 as [Ha Hb']. split; intros [Hc|Hc]; try discriminate Hc; tauto. }
    destruct f as [|err].
    + destruct (IH _ H) as (tl2 & Ht2 & Hq2 & Hp2 & Hn2).
      exists ((CallLoadPluginByName name :: tl1) ++ tl2).
      split; [rewrite Ht2, Ht1, <- !app_assoc; reflexivity|].
      split; [apply quiet_app; assumption|].
      rewrite loaded_app. change (loaded (CallLoadPluginByName name :: tl1))
        with (name :: loaded tl1). rewrite Hl1. cbn [app].
      split; [apply prefix_cons; assumption|].
      intros Hr. f_equal. auto.
    + injection H as <- <-.
      exists (CallLoadPluginByName name :: tl1).
      split; [assumption|]. split; [assumption|].
      change (loaded (CallLoadPluginByName name :: tl1)) with (name :: loaded tl1).
      rewrite Hl1. split; [apply prefix_cons, prefix_nil | discriminate].
Qed.



(** *** Explicit names: an iteration goes on only after a successful upgrade *)

Lemma step_explicit_continue name s s' :
  step explicitMode name s s' Continue ->
  exists plugin w,
    LoadPluginByName (world s) name = (plugin, None)
    /\ Upgrade (world s) plugin = (w, None)
    /\ s' = emit (PrintSecurityNotice (Name plugin))
              (emit (Stderr (msg_upgraded name)) (after_upgrade name plugin w s)).
Proof.
  intros H. inversion H; subst; try discriminate.
  eexists _, _. repeat split; eassumption.
Qed.

Lemma rangeLoop_explicit_ok names s s' :
  rangeLoop explicitMode names s = (s', None) ->
  nErrors s' = nErrors s
  /\ loaded (trace s') = loaded (trace s) ++ names
  /\ stderr (trace s') = stderr (trace s) ++ flat_map success_lines names
  /\ exists plugins,
       length plugins = length names
       /\ upgrades (trace s') = upgrades (trace s) ++ plugins
       /\ notices (trace s') = notices (trace s) ++ map Name plugins.
Proof.
  revert s. induction names as [|name rest IH]; intros s H; simpl in H.
  - injection H as <-. rewrite !app_nil_r. repeat split.
    exists []. rewrite !app_nil_r. auto.
  - destruct (loopBody explicitMode name s) as [s1 [|err]] eqn:Hb; [|discriminate].
    apply loopBody_step_eq, step_explicit_continue in Hb.
    destruct Hb as (plugin & w & Hl & Hu & ->).
    destruct (IH _ H) as (Hn & Hld & Herr & plugins & Hlen & Hup & Hnt).
    split; [rewrite Hn; reflexivity|].
    split; [rewrite Hld; norm_trace; rewrite !loaded_app, <- app_assoc; reflexivity|].
    split; [rewrite Herr; norm_trace; rewrite !stderr_app, <- app_assoc; reflexivity|].
    exists (plugin :: plugins). cbn [length map]. split; [congruence|].
    split.
    + rewrite Hup. norm_trace. rewrite !upgrades_app, <- app_assoc. reflexivity.
    + rewrite Hnt. norm_trace. rewrite !notices_app, <- app_assoc. reflexivity.
Qed.

(** *** All plugins: only a manifest that cannot be read stops the loop *)

Lemma step_all_return name s s' err :
  step allMode name s s' (Return err) ->
  exists plugin e,
    LoadPluginByName (world s) name = (plugin, Some e)
    /\ IsNotExist e = false
    /\ err = err_load name e
    /\ s' = emit (CallLoadPluginByName name) s.
Proof.
  intros H. inversion H; subst; try discriminate.
  eexists _, _. repeat split; eassumption.
Qed.

Lemma rangeLoop_all_return names s s' err :
  rangeLoop allMode names s = (s', Some err) ->
  exists name e, In name names /\ IsNotExist e = false /\ err = err_load name e.
Proof.
  revert s. induction names as [|name rest IH]; intros s H; simpl in H.
  - discriminate.
  - destruct (loopBody allMode name s) as [s1 [|err1]] eqn:Hb.
    + destruct (IH _ H) as (n & e & Hin & Hne & ->).
      exists n, e. simpl. auto.
    + injection H as <- <-.
      apply loopBody_step_eq, step_all_return in Hb.
      destruct Hb as (plugin & e & _ & Hne & -> & _).
      exists name, e. simpl. auto.
Qed.

(** *** [classify] in terms of the collaborators' answers *)

Lemma classify_not_found w name :
  classify w name = NotFound <->
  exists plugin e, LoadPluginByName w name = (plugin, Some e) /\ IsNotExist e = true.
Proof.
  unfold classify. destruct (LoadPluginByName w name) as [plugin [e|]].
  - destruct (IsNotExist e) eqn:Hn; split; try discriminate; eauto.
    intros (? & ? & [= <- <-] & Hn'). congruence.
  - destruct (Upgrade w plugin) as [w' [e|]]; [destruct (isAlreadyUpgraded e)|];
      split; try discriminate; intros (? & ? & [=] & _).
Qed.

Lemma classify_load_fault w name :
  classify w name = LoadFault <->
  exists plugin e, LoadPluginByName w name = (plugin, Some e) /\ IsNotExist e = false.
Proof.
  unfold classify. destruct (LoadPluginByName w name) as [plugin [e|]].
  - destruct (IsNotExist e) eqn:Hn; split; try discriminate; eauto.
    intros (? & ? & [= <- <-] & Hn'). congruence.
  - destruct (Upgrade w plugin) as [w' [e|]]; [destruct (isAlreadyUpgraded e)|];
      split; try discriminate; intros (? & ? & [=] & _).
Qed.

Lemma classify_upgrade w name (o : outcome) :
  classify w name = o ->
  o = Upgraded \/ o = AlreadyCurrent \/ o = UpgradeFailure ->
  exists plugin w' r,
    LoadPluginByName w name = (plugin, None)
    /\ Upgrade w plugin = (w', r)
    /\ match r with
       | None => o = Upgraded
       | Some e => if isAlreadyUpgraded e then o = AlreadyCurrent else o = UpgradeFailure
       end.
Proof.
  unfold classify. intros H Ho.
  destruct (LoadPluginByName w name) as [plugin [e|]].
  - destruct (IsNotExist e); subst o; destruct Ho as [|[|]]; discriminate.
  - destruct (Upgrade w plugin) as [w' r] eqn:Hu. exists plugin, w', r.
    split; [reflexivity|]. split; [exact Hu|].
    destruct r as [e|]; [destruct (isAlreadyUpgraded e)|]; symmetry; exact H.
Qed.

(** ** The names to upgrade and the flags *)

Lemma resolve_explicit order w args :
  args <> [] -> resolve order w args = (init w, inr (args, explicitMode)).
Proof. intros Ha. unfold resolve. destruct args; [contradiction | reflexivity]. Qed.

Lemma resolve_all order w installed :
  ListInstalledPlugins w = (installed, None) ->
  resolve order w [] = (emit CallListInstalledPlugins (init w), inr (order, allMode)).
Proof. intros Hl. unfold resolve. cbn [length Nat.eqb]. rewrite Hl. reflexivity. Qed.

Lemma RunE_explicit order w args :
  args <> [] ->
  RunE order w args =
  match rangeLoop explicitMode args (init w) with
  | (s', Some err) => (s', Some err)
  | (s', None) => finish s'
  end.
Proof. intros Ha. unfold RunE. rewrite resolve_explicit by assumption. reflexivity. Qed.

Lemma RunE_all order w installed :
  ListInstalledPlugins w = (installed, None) ->
  RunE order w [] =
  match rangeLoop allMode order (emit CallListInstalledPlugins (init w)) with
  | (s', Some err) => (s', Some err)
  | (s', None) => finish s'
  end.
Proof. intros Hl. unfold RunE. rewrite (resolve_all _ _ _ Hl). reflexivity. Qed.

(** C3: the two flags depend only on whether names were given, and are
    always equal.  With no argument and the receipts enumerated, whatever
    the installed set is, the flags are both true; with one argument or
    more they are both false. *)
Theorem mode_follows_args (order : list string) (w : World) (args : list string) :
  (args = [] ->
   forall installed, ListInstalledPlugins w = (installed, None) ->
     (resolve order w args).2
     = inr (order, {| ignoreUpgraded := true; skipErrors := true |}))
  /\ (args <> [] ->
      (resolve order w args).2
      = inr (args, {| ignoreUpgraded := false; skipErrors := false |}))
  /\ (forall names mode,
        (resolve order w args).2 = inr (names, mode) ->
        ignoreUpgraded mode = skipErrors mode
        /\ skipErrors mode = (length args =? 0)%nat).
Proof.
  split; [|split].
  - intros -> installed Hl. rewrite (resolve_all _ _ _ Hl). reflexivity.
  - intros Ha. rewrite resolve_explicit by assumption. reflexivity.
  - intros names mode. unfold resolve.
    destruct args as [|a args]; cbn [length Nat.eqb].
    + destruct (ListInstalledPlugins w) as [installed [err|]]; cbn [snd];
        [discriminate|]. intros [= <- <-]. split; reflexivity.
    + cbn [snd]. intros [= <- <-]. split; reflexivity.
Qed.

(** Where a loop stops when an iteration returns: the names before the
    one that returned have all been taken up, in order, and then that
    one. *)
Lemma step_counts_one_load mode name s s' f :
  step mode name s s' f -> loaded (trace s') = loaded (trace s) ++ [name].
Proof.
  intros H. destruct (step_trace _ _ _ _ _ H) as (tl & Ht & Hl & _).
  rewrite Ht, loaded_app.
  change (loaded (CallLoadPluginByName name :: tl)) with (name :: loaded tl).
  rewrite Hl. reflexivity.
Qed.

Lemma step_explicit_return name s s' err :
  step explicitMode name s s' (Return err) ->
  stderr (trace s') = stderr (trace s)
  \/ stderr (trace s') = stderr (trace s) ++ [msg_upgrading name].
Proof.
  intros H. inversion H; subst; norm_trace; rewrite ?stderr_app; cbn;
    rewrite ?app_nil_r; auto.
Qed.

Lemma rangeLoop_explicit_stop names s s' err :
  rangeLoop explicitMode names s = (s', Some err) ->
  exists pre name post,
    names = pre ++ name :: post
    /\ loaded (trace s') = loaded (trace s) ++ pre ++ [name]
    /\ (stderr (trace s') = stderr (trace s) ++ flat_map success_lines pre
        \/ stderr (trace s')
           = stderr (trace s) ++ flat_map success_lines pre ++ [msg_upgrading name]).
Proof.
  revert s. induction names as [|n rest IH]; intros s H; simpl in H; [discriminate|].
  destruct (loopBody explicitMode n s) as [s1 [|err1]] eqn:Hb;
    apply loopBody_step_eq in Hb.
  - destruct (IH _ H) as (pre & name & post & -> & Hl & He).
    pose proof (step_counts_one_load _ _ _ _ _ Hb) as Hl1.
    apply step_explicit_continue in Hb. destruct Hb as (plugin & w' & _ & _ & ->).
    exists (n :: pre), name, post. split; [reflexivity|].
    split; [rewrite Hl, Hl1, <- !app_assoc; reflexivity|].
    assert (Hs1 : stderr (trace (emit (PrintSecurityNotice (Name plugin))
                                   (emit (Stderr (msg_upgraded n))
                                      (after_upgrade n plugin w' s))))
                  = stderr (trace s) ++ success_lines n).
    { norm_trace. rewrite stderr_app. reflexivity. }
    rewrite Hs1 in He. cbn [flat_map].
    destruct He as [He | He]; [left | right]; rewrite He, <- !app_assoc; reflexivity.
  - injection H as <- <-. exists [], n, rest. split; [reflexivity|].
    split; [apply (step_counts_one_load _ _ _ _ _ Hb)|].
    cbn [flat_map app]. rewrite app_nil_r. apply (step_explicit_return _ _ _ _ Hb).
Qed.

(** C8: with explicit names the list to process is the argument list as
    given: the receipts are not consulted, and nothing is removed or
    reordered.  Every such run takes up the names in the order of the
    arguments, starting with the first, and writes its lines in that
    order.  A run that goes through has taken up all of them and written
    the two lines of each; a run that stops has taken up the arguments
    up to the one it stopped at, written the two lines of each one
    before it and, for that one, nothing or the "Upgrading plugin"
    line. *)
Theorem explicit_names_verbatim (order : list string) (w : World) (args : list string) :
  args <> [] ->
  resolve order w args
  = (init w, inr (args, {| ignoreUpgraded := false; skipErrors := false |}))
  /\ ~ In CallListInstalledPlugins (trace (RunE order w args).1)
  /\ loaded (trace (RunE order w args).1) `prefix_of` args
  /\ loaded (trace (RunE order w args).1) <> []
  /\ stderr (trace (RunE order w args).1) `prefix_of` flat_map success_lines args
  /\ match (RunE order w args).2 with
     | None =>
         loaded (trace (RunE order w args).1) = args
         /\ stderr (trace (RunE order w args).1) = flat_map success_lines args
     | Some _ =>
         exists pre name post,
           args = pre ++ name :: post
           /\ loaded (trace (RunE order w args).1) = pre ++ [name]
           /\ (stderr (trace (RunE order w args).1) = flat_map success_lines pre
               \/ stderr (trace (RunE order w args).1)
                  = flat_map success_lines pre ++ ["Upgrading plugin: " +:+ name +:+ nl])
     end.
Proof.
  intros Ha. split; [apply resolve_explicit; assumption|].
  rewrite RunE_explicit by assumption.
  destruct (rangeLoop explicitMode args (init w)) as [s' r] eqn:Hr.
  destruct (rangeLoop_trace _ _ _ _ _ Hr) as (tl & Ht & [_ Hq] & Hp & Hn).
  cbn [init trace app] in Ht.
  destruct r as [err|].
  - cbn [fst snd].
    destruct (rangeLoop_explicit_stop _ _ _ _ Hr) as (pre & name & post & Hargs & Hl & He).
    cbn [init trace] in Hl, He.
    change (loaded []) with (@nil string) in Hl.
    change (stderr []) with (@nil string) in He. cbn [app] in Hl, He.
    split; [rewrite Ht; assumption|]. split; [rewrite Ht; assumption|].
    split; [rewrite Hl; destruct pre; discriminate|].
    split.
    + rewrite Hargs, flat_map_app. cbn [flat_map success_lines app].
      destruct He as [-> | ->].
      * apply prefix_app_r. reflexivity.
      * apply prefix_app. exists (msg_upgraded name :: flat_map success_lines post).
        reflexivity.
    + exists pre, name, post. auto.
  - destruct (rangeLoop_explicit_ok _ _ _ Hr) as (Hc & Hl & He & _).
    cbn [init trace nErrors] in Hc, Hl, He. cbn [loaded stderr omap app] in Hl, He.
    unfold finish. rewrite Hc. cbn [Z.ltb Z.compare fst snd].
    split; [rewrite Ht; assumption|]. split; [rewrite Hl; reflexivity|].
    split; [rewrite Hl; assumption|]. split; [rewrite He; reflexivity|]. auto.
Qed.

(** ** Outcomes in the two modes *)

(** C6: a manifest that cannot be read, for a reason other than its
    absence, ends the run at once with the wrapped error naming the
    plugin, whatever the flags; the names after it are not looked at. *)
Theorem load_fault_is_fatal (order : list string) (w : World) (args : list string)
  (s0 : St) (mode : Mode) (pre : list string) (name : string) (post : list string)
  (s : St) (plugin : Plugin) (e : error) :
  resolve order w args = (s0, inr (pre ++ name :: post, mode)) ->
  rangeLoop mode pre s0 = (s, None) ->
  LoadPluginByName (world s) name = (plugin, Some e) ->
  IsNotExist e = false ->
  RunE order w args
  = (emit (CallLoadPluginByName name) s,
     Some (Wrapf e ("failed to load the plugin manifest for plugin " +:+ name)))
  /\ loaded (trace (RunE order w args).1) = pre ++ [name]
  /\ forall (flags : Mode) (rest : list string),
       rangeLoop flags (name :: rest) s
       = (emit (CallLoadPluginByName name) s,
          Some (Wrapf e ("failed to load the plugin manifest for plugin " +:+ name))).
Proof.
  intros Hres Hpre Hl Hn.
  assert (Hloop : forall flags rest,
             rangeLoop flags (name :: rest) s
             = (emit (CallLoadPluginByName name) s, Some (err_load name e))).
  { intros flags rest. apply rangeLoop_cons_return.
    eapply loopBody_load_fault; eassumption. }
  assert (HR : RunE order w args
               = (emit (CallLoadPluginByName name) s, Some (err_load name e))).
  { unfold RunE. rewrite Hres, (rangeLoop_reach _ _ _ _ _ Hpre), Hloop. reflexivity. }
  split; [exact HR|]. split; [|exact Hloop].
  rewrite HR. cbn [fst emit trace]. rewrite loaded_app.
  destruct (rangeLoop_trace _ _ _ _ _ Hpre) as (tl & Ht & _ & _ & Hld).
  rewrite Ht, loaded_app, (Hld eq_refl).
  assert (H0 : loaded (trace s0) = []).
  { unfold resolve in Hres. destruct (length args =? 0)%nat.
    - destruct (ListInstalledPlugins w) as [? [?|]]; injection Hres as <- _; reflexivity.
    - injection Hres as <- _. reflexivity. }
  rewrite H0. reflexivity.
Qed.

(** C4: in all-plugins mode a plugin that is already on the newest
    version leaves the counter as it is, makes the iteration end in
    [continue] (no error is returned), writes the line
    "Skipping plugin <name>, it is already on the newest version", and
    the loop goes on with the next name. *)
Theorem all_plugins_already_current (name : string) (rest : list string) (s : St) :
  classify (world s) name = AlreadyCurrent ->
  exists s',
    loopBody allMode name s = (s', Continue)
    /\ nErrors s' = nErrors s
    /\ stderr (trace s')
       = stderr (trace s)
         ++ ["Upgrading plugin: " +:+ name +:+ nl;
             "Skipping plugin " +:+ name
               +:+ ", it is already on the newest version" +:+ nl]
    /\ rangeLoop allMode (name :: rest) s = rangeLoop allMode rest s'.
Proof.
  intros Hc.
  destruct (classify_upgrade _ _ _ Hc) as (plugin & w' & r & Hl & Hu & Hr); [auto|].
  destruct r as [e|]; [|discriminate].
  destruct (isAlreadyUpgraded e) eqn:He; [|discriminate].
  assert (Hb : loopBody allMode name s
               = (emit (Stderr (msg_skipping name)) (after_upgrade name plugin w' s),
                  Continue))
    by (eapply loopBody_already_skipped; [eassumption..|cbn; rewrite He; reflexivity]).
  eexists. split; [exact Hb|]. split; [reflexivity|].
  split; [|apply rangeLoop_cons_continue; exact Hb].
  norm_trace. rewrite !stderr_app. reflexivity.
Qed.

(** What the failing iteration of an explicit run leaves behind. *)
Lemma explicit_failure_step name s :
  classify (world s) name = NotFound
  \/ classify (world s) name = AlreadyCurrent
  \/ classify (world s) name = UpgradeFailure ->
  exists s' err tl,
    loopBody explicitMode name s = (s', Return err)
    /\ (err = err_not_in_index name \/ exists e, err = err_upgrade name e)
    /\ trace s' = trace s ++ CallLoadPluginByName name :: tl
    /\ loaded tl = [] /\ notices tl = []
    /\ (stderr tl = [] \/ stderr tl = [msg_upgrading name])
    /\ world s' = match LoadPluginByName (world s) name with
                  | (plugin, None) => (Upgrade (world s) plugin).1
                  | (_, Some _) => world s
                  end.
Proof.
  intros [Hc | Hc].
  - apply classify_not_found in Hc. destruct Hc as (plugin & e & Hl & Hn).
    eexists _, _, []. split; [eapply loopBody_not_found_fatal; eauto|].
    rewrite Hl. repeat split; auto.
  - assert (Hc' : exists o, classify (world s) name = o
                            /\ (o = AlreadyCurrent \/ o = UpgradeFailure))
      by (destruct Hc as [Hc|Hc]; eauto).
    destruct Hc' as (o & Ho & Hoo).
    destruct (classify_upgrade _ _ _ Ho) as (plugin & w' & r & Hl & Hu & Hr);
      [tauto|].
    destruct r as [e|]; [|rewrite Hr in Hoo; destruct Hoo; discriminate].
    eexists _, _, _. split; [eapply loopBody_failed_fatal; eauto|].
    rewrite Hl, Hu. split; [eauto|]. split; [norm_trace; reflexivity|].
    repeat split; auto.
Qed.

(** C1: with explicit names, let the names before [name] have gone
    through and let [name] be missing from the index, already current,
    or fail to upgrade.  Then the run returns an error that names
    [name], whatever names follow: none of them is loaded.  The lines
    and security notices of the earlier names are in the trace, one
    upgrade and one notice per name, and the world is the one their
    upgrades (and the failed attempt, if one was made) left. *)
Theorem explicit_stops_at_first_failure (order : list string) (w : World)
  (pre : list string) (name : string) (s : St) :
  rangeLoop explicitMode pre (init w) = (s, None) ->
  classify (world s) name = NotFound
  \/ classify (world s) name = AlreadyCurrent
  \/ classify (world s) name = UpgradeFailure ->
  exists s' err,
    (forall post, RunE order w (pre ++ name :: post) = (s', Some err))
    /\ (err = Errorf ("plugin " +:+ Quote name +:+ " does not exist in the plugin index")
        \/ exists e, err = Wrapf e ("failed to upgrade plugin " +:+ Quote name))
    /\ loaded (trace s') = pre ++ [name]
    /\ (exists tl, trace s' = trace s ++ tl /\ notices tl = []
                   /\ (stderr tl = [] \/ stderr tl = [msg_upgrading name]))
    /\ stderr (trace s) = flat_map success_lines pre
    /\ (exists plugins, length plugins = length pre
                        /\ upgrades (trace s) = plugins
                        /\ notices (trace s) = map Name plugins)
    /\ world s' = match LoadPluginByName (world s) name with
                  | (plugin, None) => (Upgrade (world s) plugin).1
                  | (_, Some _) => world s
                  end.
Proof.
  intros Hpre Hc.
  destruct (explicit_failure_step _ _ Hc)
    as (s' & err & tl & Hb & Herr & Ht & Hld & Hnt & Hse & Hw).
  destruct (rangeLoop_explicit_ok _ _ _ Hpre) as (_ & Hl & He & plugins & Hlen & Hup & Hno).
  cbn [init trace loaded stderr upgrades notices omap app] in Hl, He, Hup, Hno.
  exists s', err. split.
  { intros post. rewrite RunE_explicit by (destruct pre; discriminate).
    rewrite (rangeLoop_reach _ _ _ _ _ Hpre), (rangeLoop_cons_return _ _ _ _ _ _ Hb).
    reflexivity. }
  split; [exact Herr|].
  split.
  { rewrite Ht, loaded_app, Hl.
    change (loaded (CallLoadPluginByName name :: tl)) with (name :: loaded tl).
    rewrite Hld. reflexivity. }
  split; [exists (CallLoadPluginByName name :: tl); auto|].
  split; [exact He|]. split; [|exact Hw].
  exists plugins. auto.
Qed.





Lemma finish_spec s :
  (finish s).2 = None /\ nErrors (finish s).1 = nErrors s
  /\ world (finish s).1 = world s.
Proof. unfold finish. destruct (0 <? nErrors s); repeat split. Qed.

Lemma all_mode_continues name st :
  classify (world st) name <> LoadFault -> (loopBody allMode name st).2 = Continue.
Proof.
  intros Hc. pose proof (loopBody_step allMode name st) as Hs.
  destruct (loopBody allMode name st) as [s' [|err]]; [reflexivity|].
  cbn [fst snd] in Hs. apply step_all_return in Hs.
  destruct Hs as (plugin & e & Hl & Hn & _).
  exfalso. apply Hc. apply classify_load_fault. eauto.
Qed.

Lemma RunE_all_error order w err :
  (RunE order w []).2 = Some err ->
  (exists e, err = err_enumerate e)
  \/ (exists n e, In n order /\ IsNotExist e = false /\ err = err_load n e).
Proof.
  unfold RunE, resolve. cbn [length Nat.eqb].
  destruct (ListInstalledPlugins w) as [installed [e|]].
  - cbn [snd]. intros [= <-]. left. eauto.
  - destruct (rangeLoop allMode order _) as [sf [e|]] eqn:Hr.
    + cbn [snd]. intros [= <-]. right. eapply rangeLoop_all_return. exact Hr.
    + intros H. destruct (finish_spec sf) as [Hf _]. congruence.
Qed.

(** C7: an all-plugins run whose loop comes to its end returns nil,
    whatever the counter has become; the counter and the world are those
    the loop left.  In that mode an iteration returns only when a
    manifest cannot be read, so that the only errors the run returns are
    that one and the failure to enumerate the receipts. *)
Theorem all_plugins_completed_run_returns_nil (order : list string) (w : World)
  (installed : gmap string Receipt) (s : St) :
  ListInstalledPlugins w = (installed, None) ->
  rangeLoop allMode order (emit CallListInstalledPlugins (init w)) = (s, None) ->
  (RunE order w []).2 = None
  /\ nErrors (RunE order w []).1 = nErrors s
  /\ world (RunE order w []).1 = world s
  /\ (forall name st,
        classify (world st) name <> LoadFault ->
        (loopBody allMode name st).2 = Continue)
  /\ (forall order' w' err,
        (RunE order' w' []).2 = Some err ->
        (exists e, err = Wrapf e "failed to find all installed versions")
        \/ (exists n e, In n order' /\ IsNotExist e = false
                        /\ err = Wrapf e ("failed to load the plugin manifest for plugin "
                                          +:+ n))).
Proof.
  intros Hl Hr. rewrite (RunE_all _ _ _ Hl), Hr.
  destruct (finish_spec s) as (H1 & H2 & H3).
  repeat split; try assumption.
  - apply all_mode_continues.
  - apply RunE_all_error.
Qed.

(** C9: in all-plugins mode a name whose manifest is not found gets no
    "Upgrading plugin" line and no call of [Upgrade]: the iteration adds
    to the trace the lookup and the warning line of a failed upgrade,
    with the text of the error the lookup returned, counts one error
    and goes on.  A failed upgrade, from a state with the same counter,
    ends with the same line for its own error and the same counter. *)
Theorem all_plugins_missing_is_generic_failure (name : string) (s : St)
  (plugin : Plugin) (e : error) :
  0 <= nErrors s < GoInt.max_int ->
  LoadPluginByName (world s) name = (plugin, Some e) ->
  IsNotExist e = true ->
  exists s' tl,
    loopBody allMode name s = (s', Continue)
    /\ trace s' = trace s ++ tl
    /\ tl = [CallLoadPluginByName name;
             Stderr ("WARNING: failed to upgrade plugin " +:+ Quote name
                     +:+ ", skipping (error: " +:+ Error e +:+ ")" +:+ nl)]
    /\ ~ In (Stderr ("Upgrading plugin: " +:+ name +:+ nl)) tl
    /\ nErrors s' = nErrors s + 1
    /\ world s' = world s
    /\ (forall s2 plugin2 w2 e2,
          nErrors s2 = nErrors s ->
          LoadPluginByName (world s2) name = (plugin2, None) ->
          Upgrade (world s2) plugin2 = (w2, Some e2) ->
          isAlreadyUpgraded e2 = false ->
          exists s2',
            loopBody allMode name s2 = (s2', Continue)
            /\ nErrors s2' = nErrors s'
            /\ last (trace s2')
               = Some (Stderr ("WARNING: failed to upgrade plugin " +:+ Quote name
                               +:+ ", skipping (error: " +:+ Error e2 +:+ ")" +:+ nl))).
Proof.
  intros Hb Hl Hn.
  eexists _, _. split; [eapply loopBody_not_found_skipped; eauto|].
  split; [norm_trace; reflexivity|]. split; [reflexivity|].
  split.
  { intros [H|[H|[]]]; [discriminate H|]. injection H as H.
    cbv [String.append] in H. discriminate H. }
  split; [cbn; apply GoInt_incr_small; assumption|].
  split; [reflexivity|].
  intros s2 plugin2 w2 e2 Hc Hl2 Hu2 He2.
  eexists. split; [eapply loopBody_failed_skipped; eauto|].
  split; [cbn; rewrite Hc; reflexivity|].
  cbn [emit trace]. apply last_snoc.
Qed.

(** ** The summary line *)

Lemma resolve_trace order w args :
  trace (resolve order w args).1 = []
  \/ trace (resolve order w args).1 = [CallListInstalledPlugins].
Proof.
  unfold resolve. destruct (length args =? 0)%nat; [|left; reflexivity].
  destruct (ListInstalledPlugins w) as [? [?|]]; right; reflexivity.
Qed.

Lemma summary_iff order w args :
  In (Stderr msg_summary) (trace (RunE order w args).1)
  <-> (RunE order w args).2 = None /\ 0 < nErrors (RunE order w args).1.
Proof.
  unfold RunE. pose proof (resolve_trace order w args) as H0.
  destruct (resolve order w args) as [s0 [err | [names mode]]]; cbn [fst snd] in *.
  - split; [|intros [H _]; discriminate H].
    destruct H0 as [-> | ->]; simpl; intros H;
      repeat (destruct H as [H|H]; try discriminate H); contradiction.
  - destruct (rangeLoop mode names s0) as [s' r] eqn:Hr.
    destruct (rangeLoop_trace _ _ _ _ _ Hr) as (tl & Ht & [Hq _] & _).
    assert (Hno : ~ In (Stderr msg_summary) (trace s')).
    { rewrite Ht. intros H. apply in_app_or in H. destruct H as [H|H]; [|tauto].
      destruct H0 as [H0 | H0]; rewrite H0 in H; simpl in H;
        repeat (destruct H as [H|H]; try discriminate H); contradiction. }
    destruct r as [err|]; cbn [fst snd].
    + split; [tauto | intros [H _]; discriminate H].
    + unfold finish. destruct (0 <? nErrors s') eqn:Hn; cbn [fst snd emit trace nErrors].
      * apply Z.ltb_lt in Hn. split; [auto|]. intros _. apply in_or_app. right. left.
        reflexivity.
      * apply Z.ltb_ge in Hn. split; [tauto|]. intros [_ H]. lia.
Qed.

(** ** The order of the map plays no part when names are given *)

Lemma explicit_run_ignores_order order1 order2 w args :
  args <> [] -> RunE order1 w args = RunE order2 w args.
Proof. intros Ha. rewrite !RunE_explicit by assumption. reflexivity. Qed.

End Facts.

(** * Runs in the small world *)

Section Runs.

#[local] Existing Instance Demo.env.

(** [upgrade foo ...]: the state once [foo] has been upgraded. *)
Definition after_foo : St := (rangeLoop explicitMode ["foo"] (init Demo.w0)).1.

(** The state in which an all-plugins run enters the loop. *)
Definition entering (w : Demo.state) : St := emit CallListInstalledPlugins (init w).

(** The all-plugins run over [a] then [b], at the end of its loop. *)
Definition after_a_b : St := (rangeLoop allMode ["a"; "b"] (entering Demo.w_ab)).1.

Lemma keys_w_ab : (map_to_list (Demo.receipts Demo.w_ab)).*1 = ["a"; "b"].
Proof. vm_compute. reflexivity. Qed.

Lemma range_order_a_b : range_order (Demo.receipts Demo.w_ab) ["a"; "b"].
Proof.
  change (["a"; "b"] ≡ₚ (map_to_list (Demo.receipts Demo.w_ab)).*1).
  rewrite keys_w_ab. reflexivity.
Qed.

Lemma range_order_b_a : range_order (Demo.receipts Demo.w_ab) ["b"; "a"].
Proof.
  change (["b"; "a"] ≡ₚ (map_to_list (Demo.receipts Demo.w_ab)).*1).
  rewrite keys_w_ab. apply perm_swap.
Qed.

(** C5: the summary line is in the trace of a run exactly when the run
    returned nil, that is, its loop came to its end, with a counter above
    zero.  A run that returns an error from inside the loop does not
    write it, and there is such a run whose counter is above zero. *)
Theorem summary_iff_completed_with_failures :
  (forall (E : Env) (order : list string) (w : World) (args : list string),
      In (Stderr ("WARNING: Some plugins failed to upgrade, check logs above." +:+ nl))
         (trace (RunE order w args).1)
      <-> (RunE order w args).2 = None /\ 0 < nErrors (RunE order w args).1)
  /\ (exists (E : Env) (order : list string) (w : World) (args : list string) (err : error),
        (RunE order w args).2 = Some err
        /\ 0 < nErrors (RunE order w args).1
        /\ ~ In (Stderr ("WARNING: Some plugins failed to upgrade, check logs above." +:+ nl))
             (trace (RunE order w args).1)).
Proof.
  split.
  - intros E order w args. apply summary_iff.
  - exists Demo.env, [], Demo.w0, ["a"]. eexists.
    split; [vm_compute; reflexivity|]. split; [vm_compute; reflexivity|].
    rewrite (summary_iff (E:=Demo.env)). intros [H _]. vm_compute in H. discriminate H.
Qed.

(** C10: in all-plugins mode the run is not a function of the installed
    set: there are a world and two orders in which [range] may yield the
    keys of its receipts for which the runs take up and report the same
    plugins in different orders.  With explicit names the order of the
    map plays no part. *)
Theorem all_plugins_order_is_not_determined :
  (exists (E : Env) (w : World) (installed : gmap string Receipt)
          (order1 order2 : list string),
      ListInstalledPlugins w = (installed, None)
      /\ range_order installed order1
      /\ range_order installed order2
      /\ loaded (trace (RunE order1 w []).1) ≡ₚ loaded (trace (RunE order2 w []).1)
      /\ loaded (trace (RunE order1 w []).1) <> loaded (trace (RunE order2 w []).1)
      /\ stderr (trace (RunE order1 w []).1) <> stderr (trace (RunE order2 w []).1))
  /\ (forall (E : Env) (order1 order2 : list string) (w : World) (args : list string),
        args <> [] -> RunE order1 w args = RunE order2 w args).
Proof.
  split.
  - exists Demo.env, Demo.w_ab, (Demo.receipts Demo.w_ab), ["a"; "b"], ["b"; "a"].
    split; [reflexivity|].
    split; [exact range_order_a_b|]. split; [exact range_order_b_a|].
    split; [vm_compute; apply perm_swap|].
    split; vm_compute; discriminate.
  - intros E order1 order2 w args. apply explicit_run_ignores_order.
Qed.

(** ** The theorems above at these runs *)

(** [upgrade foo bar ...]: [foo] is upgraded, [bar] is not in the index. *)
Lemma explicit_stops_at_first_failure_witness :
  rangeLoop explicitMode ["foo"] (init Demo.w0) = (after_foo, None)
  /\ classify (world after_foo) "bar" = NotFound
  /\ exists s' err,
       forall post, RunE [] Demo.w0 ("foo" :: "bar" :: post) = (s', Some err).
Proof.
  assert (H1 : rangeLoop explicitMode ["foo"] (init Demo.w0) = (after_foo, None))
    by (vm_compute; reflexivity).
  assert (H2 : classify (world after_foo) "bar" = NotFound)
    by (vm_compute; reflexivity).
  split; [exact H1|]. split; [exact H2|].
  destruct (explicit_stops_at_first_failure (E:=Demo.env) [] Demo.w0 ["foo"] "bar" after_foo
              H1 (or_introl H2)) as (s' & err & Hrun & _).
  exists s', err. exact Hrun.
Defined.






Lemma mode_follows_args_witness :
  (resolve ["a"; "b"] Demo.w_ab []).2
  = inr (["a"; "b"], {| ignoreUpgraded := true; skipErrors := true |})
  /\ (resolve ["a"; "b"] Demo.w0 ["foo"]).2
     = inr (["foo"], {| ignoreUpgraded := false; skipErrors := false |}).
Proof.
  split.
  - apply (proj1 (mode_follows_args (E:=Demo.env) ["a"; "b"] Demo.w_ab []) eq_refl
             (Demo.receipts Demo.w_ab)).
    reflexivity.
  - apply (proj1 (proj2 (mode_follows_args (E:=Demo.env) ["a"; "b"] Demo.w0 ["foo"]))).
    discriminate.
Defined.

(** All plugins: [cur] is on the newest version. *)
Lemma all_plugins_already_current_witness :
  classify (world (entering Demo.w0)) "cur" = AlreadyCurrent
  /\ exists s', loopBody allMode "cur" (entering Demo.w0) = (s', Continue)
                /\ nErrors s' = 0.
Proof.
  assert (H : classify (world (entering Demo.w0)) "cur" = AlreadyCurrent)
    by (vm_compute; reflexivity).
  split; [exact H|].
  destruct (all_plugins_already_current (E:=Demo.env) "cur" [] (entering Demo.w0) H)
    as (s' & Hb & Hn & _).
  exists s'. split; [exact Hb | exact Hn].
Defined.

(** [upgrade foo locked b]: the manifest of [locked] cannot be read. *)
Lemma load_fault_is_fatal_witness :
  resolve [] Demo.w0 ["foo"; "locked"; "b"]
  = (init Demo.w0, inr (["foo"] ++ "locked" :: ["b"], explicitMode))
  /\ rangeLoop explicitMode ["foo"] (init Demo.w0) = (after_foo, None)
  /\ LoadPluginByName (world after_foo) "locked"
     = (Demo.zero, Some (ExtError false "open locked.yaml: permission denied"))
  /\ loaded (trace (RunE [] Demo.w0 ["foo"; "locked"; "b"]).1) = ["foo"; "locked"].
Proof.
  assert (H1 : resolve [] Demo.w0 ["foo"; "locked"; "b"]
               = (init Demo.w0, inr (["foo"] ++ "locked" :: ["b"], explicitMode)))
    by reflexivity.
  assert (H2 : rangeLoop explicitMode ["foo"] (init Demo.w0) = (after_foo, None))
    by (vm_compute; reflexivity).
  assert (H3 : LoadPluginByName (world after_foo) "locked"
               = (Demo.zero, Some (ExtError false "open locked.yaml: permission denied")))
    by (vm_compute; reflexivity).
  repeat (split; [assumption|]).
  exact (proj1 (proj2 (load_fault_is_fatal (E:=Demo.env) [] Demo.w0 ["foo"; "locked"; "b"] (init Demo.w0)
                         explicitMode ["foo"] "locked" ["b"] after_foo Demo.zero _
                         H1 H2 H3 eq_refl))).
Defined.

(** All plugins, [a] then [b]: one failure counted, and the run returns nil. *)
Lemma all_plugins_completed_run_returns_nil_witness :
  ListInstalledPlugins Demo.w_ab = (Demo.receipts Demo.w_ab, None)
  /\ rangeLoop allMode ["a"; "b"] (entering Demo.w_ab) = (after_a_b, None)
  /\ 0 < nErrors after_a_b
  /\ (RunE ["a"; "b"] Demo.w_ab []).2 = None.
Proof.
  assert (H1 : ListInstalledPlugins Demo.w_ab = (Demo.receipts Demo.w_ab, None))
    by reflexivity.
  assert (H2 : rangeLoop allMode ["a"; "b"] (entering Demo.w_ab) = (after_a_b, None))
    by (vm_compute; reflexivity).
  split; [exact H1|]. split; [exact H2|]. split; [vm_compute; reflexivity|].
  exact (proj1 (all_plugins_completed_run_returns_nil (E:=Demo.env) ["a"; "b"] Demo.w_ab
                  (Demo.receipts Demo.w_ab) after_a_b H1 H2)).
Defined.

(** [upgrade b foo] goes through, in the order given; [upgrade foo foo]
    takes up [foo] twice. *)
Lemma explicit_names_verbatim_witness :
  ["b"; "foo"] <> []
  /\ (RunE ["a"; "b"] Demo.w0 ["b"; "foo"]).2 = None
  /\ loaded (trace (RunE ["a"; "b"] Demo.w0 ["b"; "foo"]).1) = ["b"; "foo"]
  /\ stderr (trace (RunE ["a"; "b"] Demo.w0 ["b"; "foo"]).1)
     = [msg_upgrading "b"; msg_upgraded "b"; msg_upgrading "foo"; msg_upgraded "foo"]
  /\ ["foo"; "foo"] <> []
  /\ loaded (trace (RunE ["a"; "b"] Demo.w0 ["foo"; "foo"]).1) `prefix_of` ["foo"; "foo"]
  /\ loaded (trace (RunE ["a"; "b"] Demo.w0 ["foo"; "foo"]).1) <> [].
Proof.
  assert (H1 : ["b"; "foo"] <> []) by discriminate.
  assert (H2 : (RunE ["a"; "b"] Demo.w0 ["b"; "foo"]).2 = None)
    by (vm_compute; reflexivity).
  assert (H3 : ["foo"; "foo"] <> []) by discriminate.
  pose proof (explicit_names_verbatim (E:=Demo.env) ["a"; "b"] Demo.w0 ["b"; "foo"] H1)
    as (_ & _ & _ & _ & _ & Hgo).
  rewrite H2 in Hgo. destruct Hgo as [Hl He].
  destruct (explicit_names_verbatim (E:=Demo.env) ["a"; "b"] Demo.w0 ["foo"; "foo"] H3)
    as (_ & _ & Hp & Hne & _).
  split; [exact H1|]. split; [exact H2|]. split; [exact Hl|]. split; [exact He|].
  split; [exact H3|]. split; [exact Hp | exact Hne].
Defined.

(** All plugins: [bar] is not in the index. *)
Lemma all_plugins_missing_is_generic_failure_witness :
  0 <= nErrors (entering Demo.w0) < GoInt.max_int
  /\ LoadPluginByName (world (entering Demo.w0)) "bar"
     = (Demo.zero, Some (ExtError true "open bar.yaml: no such file or directory"))
  /\ exists s', loopBody allMode "bar" (entering Demo.w0) = (s', Continue)
                /\ nErrors s' = 1.
Proof.
  assert (H1 : 0 <= nErrors (entering Demo.w0) < GoInt.max_int)
    by (vm_compute; split; [discriminate | reflexivity]).
  assert (H2 : LoadPluginByName (world (entering Demo.w0)) "bar"
               = (Demo.zero, Some (ExtError true "open bar.yaml: no such file or directory")))
    by (vm_compute; reflexivity).
  split; [exact H1|]. split; [exact H2|].
  destruct (all_plugins_missing_is_generic_failure (E:=Demo.env) "bar" (entering Demo.w0) Demo.zero _
              H1 H2 eq_refl) as (s' & tl & Hb & _ & _ & _ & Hn & _).
  exists s'. split; [exact Hb | exact Hn].
Defined.

Lemma all_plugins_order_is_not_determined_witness :
  ["foo"] <> []
  /\ RunE ["a"; "b"] Demo.w0 ["foo"] = RunE ["b"; "a"] Demo.w0 ["foo"].
Proof.
  assert (H : ["foo"] <> []) by discriminate.
  split; [exact H|].
  exact (proj2 all_plugins_order_is_not_determined Demo.env ["a"; "b"] ["b"; "a"]
           Demo.w0 ["foo"] H).
Defined.

End Runs.

(** * More on [RunE]: what a whole run keeps true *)

Section Accounting.

Context `{E : Env}.

(** ** Reading the lines of a run *)

(** The kind of a line, told by how it begins. *)
Definition is_warning (line : string) : bool :=
  String.prefix "WARNING: failed to upgrade plugin " line.
Definition is_upgraded (line : string) : bool :=
  String.prefix "Upgraded plugin: " line.
Definition is_skipping (line : string) : bool :=
  String.prefix "Skipping plugin " line.

(** The three lines that close the processing of a name. *)
Definition is_outcome (line : string) : bool :=
  is_upgraded line || is_skipping line || is_warning line.

Definition count_lines (f : string -> bool) (tr : list effect) : nat :=
  length (List.filter f (stderr tr)).

(** The world after the calls of [Upgrade] recorded in a trace, made one
    after the other from [w]. *)
Definition upgraded_world (w : World) (tr : list effect) : World :=
  foldl (fun w' plugin => (Upgrade w' plugin).1) w (upgrades tr).

(** A state with a trace put in front of its own. *)
Definition prepend (tr : list effect) (s : St) : St :=
  {| world := world s; nErrors := nErrors s; trace := tr ++ trace s |}.

(** ** Invariants of the states of a run *)

Lemma rangeLoop_invariant (P : St -> Prop) mode names s s' r :
  (forall name s1 s2 f, P s1 -> step mode name s1 s2 f -> P s2) ->
  P s -> rangeLoop mode names s = (s', r) -> P s'.
Proof.
  intros Hstep. revert s. induction names as [|name rest IH]; intros s Hs H; simpl in H.
  - injection H as <- <-. exact Hs.
  - destruct (loopBody mode name s) as [s1 f] eqn:Hb.
    apply loopBody_step_eq in Hb. pose proof (Hstep _ _ _ _ Hs Hb) as Hs1.
    destruct f as [|err].
    + eapply IH; eassumption.
    + injection H as <- <-. exact Hs1.
Qed.

Lemma RunE_invariant (P : St -> Prop) order w args :
  P (init w) ->
  (forall s, P s -> P (emit CallListInstalledPlugins s)) ->
  (forall mode name s1 s2 f, P s1 -> step mode name s1 s2 f -> P s2) ->
  (forall s, P s -> P (emit (Stderr msg_summary) s)) ->
  P (RunE order w args).1.
Proof.
  intros H0 Hlist Hstep Hsum. unfold RunE, resolve.
  destruct (length args =? 0)%nat.
  - destruct (ListInstalledPlugins w) as [installed [err|]]; [apply Hlist, H0|].
    destruct (rangeLoop allMode order _) as [s' r] eqn:Hr.
    assert (Hs' : P s').
    { eapply rangeLoop_invariant; [| |exact Hr]; [apply Hstep | apply Hlist, H0]. }
    destruct r as [err|]; [exact Hs'|].
    unfold finish. destruct (0 <? nErrors s'); [apply Hsum|]; exact Hs'.
  - destruct (rangeLoop explicitMode args _) as [s' r] eqn:Hr.
    assert (Hs' : P s').
    { eapply rangeLoop_invariant; [| |exact Hr]; [apply Hstep | exact H0]. }
    destruct r as [err|]; [exact Hs'|].
    unfold finish. destruct (0 <? nErrors s'); [apply Hsum|]; exact Hs'.
Qed.

Ltac unfold_states :=
  cbn [trace world nErrors emit set_world count_error after_upgrade] in *.

Lemma upgrades_snoc tr e :
  upgrades (tr ++ [e])
  = upgrades tr ++ match e with CallUpgrade p => [p] | _ => [] end.
Proof. rewrite upgrades_app. destruct e; reflexivity. Qed.

Lemma loaded_snoc tr e :
  loaded (tr ++ [e])
  = loaded tr ++ match e with CallLoadPluginByName n => [n] | _ => [] end.
Proof. rewrite loaded_app. destruct e; reflexivity. Qed.

Lemma notices_snoc tr e :
  notices (tr ++ [e])
  = notices tr ++ match e with PrintSecurityNotice n => [n] | _ => [] end.
Proof. rewrite notices_app. destruct e; reflexivity. Qed.

Lemma stderr_snoc tr e :
  stderr (tr ++ [e])
  = stderr tr ++ match e with Stderr l => [l] | _ => [] end.
Proof. rewrite stderr_app. destruct e; reflexivity. Qed.

Lemma count_lines_snoc f tr e :
  count_lines f (tr ++ [e])
  = (count_lines f tr
     + match e with Stderr l => if f l then 1 else 0 | _ => 0 end)%nat.
Proof.
  unfold count_lines. rewrite stderr_snoc, List.filter_app, length_app.
  destruct e; try reflexivity. simpl. destruct (f text); reflexivity.
Qed.

(** X8: the world at the end of a run is the world the calls of
    [Upgrade] in its trace produce, made in that order from the world at
    the start: nothing else the command does changes it. *)
Theorem world_is_made_by_upgrades (order : list string) (w : World) (args : list string) :
  world (RunE order w args).1 = upgraded_world w (trace (RunE order w args).1).
Proof.
  apply (RunE_invariant (fun s => world s = upgraded_world w (trace s))).
  - reflexivity.
  - intros s Hs. unfold upgraded_world in *. unfold_states.
    rewrite upgrades_snoc, app_nil_r. exact Hs.
  - intros mode name s1 s2 f Hs Hst. unfold upgraded_world in *.
    destruct Hst; unfold_states; rewrite ?upgrades_snoc, ?app_nil_r;
      try exact Hs;
      rewrite foldl_app; cbn [foldl]; rewrite <- Hs;
      match goal with H : Upgrade _ _ = _ |- _ => rewrite H end; reflexivity.
  - intros s Hs. unfold upgraded_world in *. unfold_states.
    rewrite upgrades_snoc, app_nil_r. exact Hs.
Qed.

(** X7: every plugin handed to [Upgrade] in a run is one that
    [LoadPluginByName] returned without error for a name the run had
    taken up: the plugin that comes with a failed lookup is never
    upgraded. *)
Theorem upgrades_only_loaded_manifests (order : list string) (w : World)
  (args : list string) :
  Forall (fun plugin =>
            exists name w',
              In name (loaded (trace (RunE order w args).1))
              /\ LoadPluginByName w' name = (plugin, None))
         (upgrades (trace (RunE order w args).1)).
Proof.
  apply (RunE_invariant
           (fun s => Forall (fun plugin =>
                               exists name w',
                                 In name (loaded (trace s))
                                 /\ LoadPluginByName w' name = (plugin, None))
                            (upgrades (trace s)))).
  - constructor.
  - intros s Hs. unfold_states. rewrite upgrades_snoc, loaded_snoc, !app_nil_r. exact Hs.
  - intros mode name s1 s2 f Hs Hst.
    assert (Hmono : Forall (fun plugin =>
                               exists n w',
                                 In n (loaded (trace s1) ++ [name])
                                 /\ LoadPluginByName w' n = (plugin, None))
                            (upgrades (trace s1))).
    { eapply Forall_impl; [exact Hs|]. intros p (n & w' & Hin & Hl).
      exists n, w'. split; [apply in_or_app; left; exact Hin | exact Hl]. }
    destruct Hst; unfold_states;
      rewrite ?upgrades_snoc, ?loaded_snoc, ?app_nil_r; try exact Hmono;
      (apply Forall_app; split; [exact Hmono|]);
      (constructor; [|constructor]);
      exists name, (world s1); (split; [apply in_or_app; right; left; reflexivity|]);
      assumption.
  - intros s Hs. unfold_states. rewrite upgrades_snoc, loaded_snoc, !app_nil_r. exact Hs.
Qed.

(** ** Counting lines *)

Lemma prefix_append (p s : string) : String.prefix p (p +:+ s) = true.
Proof.
  induction p as [|a p IH].
  - destruct s; reflexivity.
  - change (String a p +:+ s) with (String a (p +:+ s)). cbn [String.prefix].
    destruct (ascii_dec a a) as [_|Hne]; [exact IH | contradiction].
Qed.

Lemma is_upgraded_msg name : is_upgraded (msg_upgraded name) = true.
Proof. apply prefix_append. Qed.
Lemma is_skipping_msg name : is_skipping (msg_skipping name) = true.
Proof. apply prefix_append. Qed.
Lemma is_warning_msg name e : is_warning (msg_failed name e) = true.
Proof. apply prefix_append. Qed.

Lemma is_outcome_upgraded name : is_outcome (msg_upgraded name) = true.
Proof. unfold is_outcome. rewrite is_upgraded_msg. reflexivity. Qed.
Lemma is_outcome_skipping name : is_outcome (msg_skipping name) = true.
Proof.
  unfold is_outcome. rewrite is_skipping_msg. apply orb_true_iff. left.
  apply orb_true_r.
Qed.
Lemma is_outcome_warning name e : is_outcome (msg_failed name e) = true.
Proof. unfold is_outcome. rewrite is_warning_msg. apply orb_true_r. Qed.

Ltac eval_kinds :=
  rewrite ?is_upgraded_msg, ?is_skipping_msg, ?is_warning_msg,
    ?is_outcome_upgraded, ?is_outcome_skipping, ?is_outcome_warning;
  repeat match goal with
    | |- context [if ?b then ?x else ?y] =>
        let v := eval vm_compute in b in
        match v with
        | true => change (if b then x else y) with x
        | false => change (if b then x else y) with y
        end
    end.

Ltac count_trace :=
  unfold_states; rewrite ?count_lines_snoc, ?loaded_snoc, ?notices_snoc,
    ?upgrades_snoc, ?length_app, ?app_nil_r;
  eval_kinds; cbn [length].

(** X11: in every run the security notices are as many as the
    "Upgraded plugin" lines, and each carries the name found in the
    manifest of a plugin that was handed to [Upgrade]. *)
Theorem one_notice_per_upgraded_line (order : list string) (w : World)
  (args : list string) :
  length (notices (trace (RunE order w args).1))
  = count_lines is_upgraded (trace (RunE order w args).1)
  /\ Forall (fun n => exists plugin,
                        In plugin (upgrades (trace (RunE order w args).1))
                        /\ n = Name plugin)
            (notices (trace (RunE order w args).1)).
Proof.
  apply (RunE_invariant
           (fun s => length (notices (trace s)) = count_lines is_upgraded (trace s)
                     /\ Forall (fun n => exists plugin,
                                           In plugin (upgrades (trace s))
                                           /\ n = Name plugin)
                               (notices (trace s)))).
  - split; [reflexivity | constructor].
  - intros s [Hs1 Hs2]. split; count_trace; [lia | exact Hs2].
  - intros mode name s1 s2 f [Hs1 Hs2] Hst.
    destruct Hst; (split; [count_trace; lia|]); count_trace; try exact Hs2.
    + apply Forall_app. split.
      * eapply Forall_impl; [exact Hs2|]. intros n (p & Hin & ->).
        exists p. split; [apply in_or_app; left; exact Hin | reflexivity].
      * constructor; [|constructor]. exists plugin.
        split; [apply in_or_app; right; left; reflexivity | reflexivity].
    + eapply Forall_impl; [exact Hs2|]. intros n (p & Hin & ->).
      exists p. split; [apply in_or_app; left; exact Hin | reflexivity].
    + eapply Forall_impl; [exact Hs2|]. intros n (p & Hin & ->).
      exists p. split; [apply in_or_app; left; exact Hin | reflexivity].
    + eapply Forall_impl; [exact Hs2|]. intros n (p & Hin & ->).
      exists p. split; [apply in_or_app; left; exact Hin | reflexivity].
  - intros s [Hs1 Hs2]. split; count_trace; [lia | exact Hs2].
Qed.

(** ** The counter *)

Lemma step_counts_loads mode name s s' f :
  step mode name s s' f ->
  length (loaded (trace s')) = S (length (loaded (trace s))).
Proof. intros H. destruct H; count_trace; lia. Qed.

Lemma rangeLoop_counter_loaded mode names s s' r :
  rangeLoop mode names s = (s', r) ->
  0 <= nErrors s ->
  nErrors s + Z.of_nat (length names) <= GoInt.max_int ->
  nErrors s <= nErrors s'
  /\ nErrors s' - nErrors s
     <= Z.of_nat (length (loaded (trace s'))) - Z.of_nat (length (loaded (trace s))).
Proof.
  revert s. induction names as [|name rest IH]; intros s H H0 Hmax; simpl in H.
  - injection H as <- <-. lia.
  - cbn [length] in Hmax. destruct (loopBody mode name s) as [s1 f] eqn:Hb.
    apply loopBody_step_eq in Hb.
    assert (Hs : nErrors s <= nErrors s1 <= nErrors s + 1)
      by (eapply step_counter_bound; [eassumption | lia]).
    pose proof (step_counts_loads _ _ _ _ _ Hb) as Hl.
    destruct f as [|err].
    + destruct (IH _ H) as [Ha Hc]; lia.
    + injection H as <- <-. lia.
Qed.

(** X3: in a run over no more names than an [int] can count, the counter
    ends between zero and the number of names the run took up:
    [nErrors++] never wraps around. *)
Theorem counter_is_bounded_by_names_taken_up (order : list string) (w : World)
  (args : list string) :
  Z.of_nat (length order) <= GoInt.max_int ->
  Z.of_nat (length args) <= GoInt.max_int ->
  0 <= nErrors (RunE order w args).1
       <= Z.of_nat (length (loaded (trace (RunE order w args).1))).
Proof.
  intros Ho Ha. unfold RunE, resolve.
  assert (Hfin : forall s, nErrors (finish s).1 = nErrors s
                           /\ loaded (trace (finish s).1) = loaded (trace s)).
  { intros s. unfold finish. destruct (0 <? nErrors s); split; try reflexivity.
    cbn [fst]. unfold_states. rewrite loaded_snoc, app_nil_r. reflexivity. }
  destruct (length args =? 0)%nat.
  - destruct (ListInstalledPlugins w) as [installed [err|]]; [cbn; lia|].
    destruct (rangeLoop allMode order _) as [s' r] eqn:Hr.
    apply rangeLoop_counter_loaded in Hr; cbn [nErrors emit init trace] in *; try lia.
    change (loaded ([] ++ [CallListInstalledPlugins])) with (@nil string) in Hr.
    cbn [length] in Hr.
    destruct r as [err|]; cbn [fst]; [lia|].
    destruct (Hfin s') as [-> ->]. lia.
  - destruct (rangeLoop explicitMode args _) as [s' r] eqn:Hr.
    apply rangeLoop_counter_loaded in Hr; cbn [nErrors emit init trace] in *; try lia.
    change (loaded []) with (@nil string) in Hr. cbn [length] in Hr.
    destruct r as [err|]; cbn [fst]; [lia|].
    destruct (Hfin s') as [-> ->]. lia.
Qed.

Lemma step_counts_warnings mode name s s' f :
  skipErrors mode = true ->
  step mode name s s' f ->
  0 <= nErrors s < GoInt.max_int ->
  nErrors s' - nErrors s
  = Z.of_nat (count_lines is_warning (trace s'))
    - Z.of_nat (count_lines is_warning (trace s)).
Proof.
  intros Hm H Hb. destruct H; try congruence; count_trace;
    rewrite ?GoInt_incr_small by assumption; lia.
Qed.

Lemma rangeLoop_counts_warnings mode names s s' r :
  skipErrors mode = true ->
  rangeLoop mode names s = (s', r) ->
  0 <= nErrors s ->
  nErrors s + Z.of_nat (length names) <= GoInt.max_int ->
  nErrors s' - nErrors s
  = Z.of_nat (count_lines is_warning (trace s'))
    - Z.of_nat (count_lines is_warning (trace s)).
Proof.
  intros Hm. revert s. induction names as [|name rest IH]; intros s H H0 Hmax; simpl in H.
  - injection H as <- <-. lia.
  - cbn [length] in Hmax. destruct (loopBody mode name s) as [s1 f] eqn:Hb.
    apply loopBody_step_eq in Hb.
    assert (Hs : nErrors s <= nErrors s1 <= nErrors s + 1)
      by (eapply step_counter_bound; [eassumption | lia]).
    assert (Hw := step_counts_warnings _ _ _ _ _ Hm Hb ltac:(lia)).
    destruct f as [|err].
    + specialize (IH _ H). lia.
    + injection H as <- <-. lia.
Qed.

Lemma RunE_all_counter order w :
  Z.of_nat (length order) <= GoInt.max_int ->
  nErrors (RunE order w []).1
  = Z.of_nat (count_lines is_warning (trace (RunE order w []).1)).
Proof.
  intros Ho. unfold RunE, resolve. cbn [length Nat.eqb].
  destruct (ListInstalledPlugins w) as [installed [err|]]; [reflexivity|].
  destruct (rangeLoop allMode order _) as [s' r] eqn:Hr.
  apply rangeLoop_counts_warnings in Hr; cbn [nErrors emit init trace] in *;
    try lia; try reflexivity.
  change (count_lines is_warning ([] ++ [CallListInstalledPlugins])) with 0%nat in Hr.
  destruct r as [err|]; cbn [fst]; [lia|].
  unfold finish. destruct (0 <? nErrors s'); cbn [fst]; count_trace; lia.
Qed.

(** X4: in an all-plugins run over no more names than an [int] can
    count, the counter at the end is the number of lines
    "WARNING: failed to upgrade plugin ..." the run wrote, whether the run
    went through, was stopped by a manifest that cannot be read, or never
    got the receipts. *)
Theorem all_plugins_counter_is_warning_lines (order : list string) (w : World) :
  Z.of_nat (length order) <= GoInt.max_int ->
  nErrors (RunE order w []).1
  = Z.of_nat (count_lines is_warning (trace (RunE order w []).1)).
Proof. apply RunE_all_counter. Qed.

(** ** Explicit names: the lines and the errors *)

Lemma success_lines_no_warning names :
  List.filter is_warning (flat_map success_lines names) = [].
Proof. induction names as [|n names IH]; [reflexivity | exact IH]. Qed.

Lemma RunE_explicit_nil order w args :
  args <> [] ->
  (RunE order w args).2 = None ->
  RunE order w args = rangeLoop explicitMode args (init w)
  /\ nErrors (RunE order w args).1 = 0
  /\ stderr (trace (RunE order w args).1) = flat_map success_lines args.
Proof.
  intros Ha. rewrite RunE_explicit by assumption.
  destruct (rangeLoop explicitMode args (init w)) as [s' [err|]] eqn:Hr;
    [discriminate|]. intros _.
  destruct (rangeLoop_explicit_ok _ _ _ Hr) as (Hc & _ & He & _).
  cbn [init nErrors trace] in Hc, He. unfold finish. rewrite Hc.
  cbn [Z.ltb Z.compare fst]. auto.
Qed.

(** X6: a run that returns nil, over no more names than an [int] can
    count, has written the summary line exactly when it has written at
    least one line "WARNING: failed to upgrade plugin ..." above it. *)
Theorem summary_iff_warning_line (order : list string) (w : World) (args : list string) :
  Z.of_nat (length order) <= GoInt.max_int ->
  (RunE order w args).2 = None ->
  In (Stderr ("WARNING: Some plugins failed to upgrade, check logs above." +:+ nl))
     (trace (RunE order w args).1)
  <-> (0 < count_lines is_warning (trace (RunE order w args).1))%nat.
Proof.
  intros Ho Hnil. change (_ +:+ nl) with msg_summary. rewrite summary_iff.
  destruct args as [|a args].
  - rewrite (RunE_all_counter _ _ Ho). split; [intros [_ H]; lia | intros H; split; [exact Hnil | lia]].
  - destruct (RunE_explicit_nil order w (a :: args)) as (_ & Hc & He);
      [discriminate | exact Hnil |].
    unfold count_lines. rewrite Hc, He, success_lines_no_warning. cbn [length].
    split; [intros [_ H]; lia | intros H; lia].
Qed.

(** X5: with explicit names, the lines the command writes itself (the
    [Stderr] effects, its own calls of [fmt.Fprintf]; what
    [internal.PrintSecurityNotice] prints when it is called is not among
    them) are only "Upgrading plugin: <name>" and "Upgraded plugin:
    <name>", for names among its arguments: of its own lines, the run
    writes neither the line of a tolerated failure, nor the skip line,
    nor the summary. *)
Theorem explicit_run_writes_only_progress_lines (order : list string) (w : World)
  (args : list string) :
  args <> [] ->
  Forall (fun line =>
            exists name,
              In name args
              /\ (line = "Upgrading plugin: " +:+ name +:+ nl
                  \/ line = "Upgraded plugin: " +:+ name +:+ nl))
         (stderr (trace (RunE order w args).1)).
Proof.
  intros Ha.
  pose (P := fun s : St =>
               Forall (fun line =>
                         exists name, In name (loaded (trace s))
                                      /\ (line = msg_upgrading name
                                          \/ line = msg_upgraded name))
                      (stderr (trace s))).
  assert (Hloop : forall s' r, rangeLoop explicitMode args (init w) = (s', r) -> P s').
  { intros s' r Hr. eapply (rangeLoop_invariant P); [| |exact Hr]; [|constructor].
    intros name s1 s2 f Hs Hst.
    assert (Hmono : Forall (fun line =>
                              exists n, In n (loaded (trace s1) ++ [name])
                                        /\ (line = msg_upgrading n
                                            \/ line = msg_upgraded n))
                           (stderr (trace s1))).
    { eapply Forall_impl; [exact Hs|]. intros l (n & Hin & Hl).
      exists n. split; [apply in_or_app; left; exact Hin | exact Hl]. }
    assert (Hname : In name (loaded (trace s1) ++ [name]))
      by (apply in_or_app; right; left; reflexivity).
    unfold P.
    destruct Hst; try discriminate; unfold_states;
      rewrite ?stderr_snoc, ?loaded_snoc, ?app_nil_r; try exact Hmono.
    - apply Forall_app. split; [apply Forall_app; split; [exact Hmono|]|];
        (constructor; [|constructor]); exists name; auto.
    - apply Forall_app. split; [exact Hmono|].
      constructor; [|constructor]. exists name. auto. }
  rewrite RunE_explicit by assumption.
  destruct (rangeLoop explicitMode args (init w)) as [s' r] eqn:Hr.
  pose proof (Hloop _ _ eq_refl) as Hs'. unfold P in Hs'.
  destruct (rangeLoop_trace _ _ _ _ _ Hr) as (tl & Ht & _ & Hp & _).
  cbn [init trace app] in Ht.
  assert (Hfin : Forall (fun line =>
                           exists name, In name args
                                        /\ (line = msg_upgrading name
                                            \/ line = msg_upgraded name))
                        (stderr (trace s'))).
  { eapply Forall_impl; [exact Hs'|]. intros l (n & Hin & Hl).
    exists n. split; [|exact Hl]. rewrite Ht in Hin.
    destruct Hp as [k ->]. apply in_or_app. left. exact Hin. }
  destruct r as [err|]; [exact Hfin|].
  destruct (rangeLoop_explicit_ok _ _ _ Hr) as (Hc & _).
  unfold finish. rewrite Hc. cbn [init nErrors Z.ltb Z.compare fst]. exact Hfin.
Qed.

Lemma step_return_names mode name s s' err :
  step mode name s s' (Return err) ->
  last (loaded (trace s')) = Some name
  /\ (err = err_not_in_index name
      \/ (exists e, IsNotExist e = false /\ err = err_load name e)
      \/ (exists e, err = err_upgrade name e)).
Proof.
  intros H.
  destruct (step_trace _ _ _ _ _ H) as (tl & Ht & Hl & _).
  split.
  - rewrite Ht, loaded_app.
    change (loaded (CallLoadPluginByName name :: tl)) with (name :: loaded tl).
    rewrite Hl. apply last_snoc.
  - inversion H; subst; eauto.
Qed.

Lemma rangeLoop_return_names mode names s s' err :
  rangeLoop mode names s = (s', Some err) ->
  exists name,
    In name names
    /\ last (loaded (trace s')) = Some name
    /\ (err = err_not_in_index name
        \/ (exists e, IsNotExist e = false /\ err = err_load name e)
        \/ (exists e, err = err_upgrade name e)).
Proof.
  revert s. induction names as [|name rest IH]; intros s H; simpl in H; [discriminate|].
  destruct (loopBody mode name s) as [s1 [|err1]] eqn:Hb.
  - destruct (IH _ H) as (n & Hin & Hrest). exists n. split; [right; exact Hin | exact Hrest].
  - injection H as <- <-. apply loopBody_step_eq, step_return_names in Hb.
    exists name. split; [left; reflexivity | exact Hb].
Qed.

(** X10: with explicit names, an error returned by the run is about the
    last name the run took up, which is one of the arguments, and is one
    of three: the plugin is not in the index, its manifest could not be
    read, or its upgrade failed. *)
Theorem explicit_error_names_last_argument_taken_up (order : list string) (w : World)
  (args : list string) (err : error) :
  args <> [] ->
  (RunE order w args).2 = Some err ->
  exists name,
    In name args
    /\ last (loaded (trace (RunE order w args).1)) = Some name
    /\ (err = Errorf ("plugin " +:+ Quote name +:+ " does not exist in the plugin index")
        \/ (exists e, IsNotExist e = false
                      /\ err = Wrapf e ("failed to load the plugin manifest for plugin "
                                        +:+ name))
        \/ (exists e, err = Wrapf e ("failed to upgrade plugin " +:+ Quote name))).
Proof.
  intros Ha. rewrite RunE_explicit by assumption.
  destruct (rangeLoop explicitMode args (init w)) as [s' [e|]] eqn:Hr.
  - cbn [fst snd]. intros [= ->]. eapply rangeLoop_return_names. exact Hr.
  - intros H. destruct (finish_spec s') as [Hf _]. congruence.
Qed.

(** ** One closing line per name *)

Lemma step_continue_outcome mode name s s' :
  step mode name s s' Continue ->
  count_lines is_outcome (trace s') = S (count_lines is_outcome (trace s)).
Proof.
  intros H. remember Continue as f eqn:Hf.
  destruct H; try discriminate Hf; count_trace; lia.
Qed.

Lemma rangeLoop_outcomes mode names s s' :
  rangeLoop mode names s = (s', None) ->
  count_lines is_outcome (trace s')
  = (count_lines is_outcome (trace s) + length names)%nat
  /\ length (loaded (trace s')) = (length (loaded (trace s)) + length names)%nat.
Proof.
  revert s. induction names as [|name rest IH]; intros s H; simpl in H.
  - injection H as <-. cbn [length]. lia.
  - destruct (loopBody mode name s) as [s1 [|err]] eqn:Hb; [|discriminate].
    apply loopBody_step_eq in Hb.
    pose proof (step_continue_outcome _ _ _ _ Hb) as Ho.
    pose proof (step_counts_loads _ _ _ _ _ Hb) as Hl.
    destruct (IH _ H) as [H1 H2]. cbn [length]. lia.
Qed.

(** X12: a run that returns nil has written exactly one closing line
    ("Upgraded plugin", "Skipping plugin" or "WARNING: failed to upgrade
    plugin") for each name it took up. *)
Theorem one_outcome_line_per_name (order : list string) (w : World) (args : list string) :
  (RunE order w args).2 = None ->
  count_lines is_outcome (trace (RunE order w args).1)
  = length (loaded (trace (RunE order w args).1)).
Proof.
  unfold RunE.
  assert (Hfin : forall s s0 names mode,
             rangeLoop mode names s0 = (s, None) ->
             count_lines is_outcome (trace s0) = 0%nat ->
             loaded (trace s0) = [] ->
             count_lines is_outcome (trace (finish s).1)
             = length (loaded (trace (finish s).1))).
  { intros s s0 names mode Hr Hc Hl.
    destruct (rangeLoop_outcomes _ _ _ _ Hr) as [H1 H2]. rewrite Hc, Hl in *.
    unfold finish. destruct (0 <? nErrors s); cbn [fst]; count_trace; cbn [length] in *; lia. }
  unfold resolve. destruct (length args =? 0)%nat.
  - destruct (ListInstalledPlugins w) as [installed [err|]]; [discriminate|].
    destruct (rangeLoop allMode order _) as [s' [err|]] eqn:Hr; [discriminate|].
    intros _. eapply Hfin; [exact Hr | reflexivity | reflexivity].
  - destruct (rangeLoop explicitMode args _) as [s' [err|]] eqn:Hr; [discriminate|].
    intros _. eapply Hfin; [exact Hr | reflexivity | reflexivity].
Qed.

(** ** Before the loop *)

(** X1: when the receipts cannot be enumerated, an all-plugins run
    returns that error wrapped, with the text
    "failed to find all installed versions: <error>", having done
    nothing but the enumeration: no name is taken up, whatever map came
    back with the error, and the world is as it was. *)
Theorem enumeration_failure_stops_before_any_plugin (order : list string) (w : World)
  (installed : gmap string Receipt) (err : error) :
  ListInstalledPlugins w = (installed, Some err) ->
  RunE order w []
  = ({| world := w; nErrors := 0; trace := [CallListInstalledPlugins] |},
     Some (Wrapf err "failed to find all installed versions"))
  /\ Error (Wrapf err "failed to find all installed versions")
     = "failed to find all installed versions: " +:+ Error err.
Proof.
  intros Hl. split; [|reflexivity].
  unfold RunE, resolve. cbn [length Nat.eqb]. rewrite Hl. reflexivity.
Qed.

Lemma range_order_empty order : range_order (∅ : gmap string Receipt) order -> order = [].
Proof.
  unfold range_order. rewrite map_to_list_empty. cbn.
  intros H. apply Permutation_nil. symmetry. exact H.
Qed.

(** X2: when no plugin is installed, an all-plugins run takes up no
    name, writes nothing, and returns nil. *)
Theorem nothing_installed_nothing_done (order : list string) (w : World) :
  ListInstalledPlugins w = (∅, None) ->
  range_order ∅ order ->
  RunE order w []
  = ({| world := w; nErrors := 0; trace := [CallListInstalledPlugins] |}, None).
Proof.
  intros Hl Ho. apply range_order_empty in Ho. subst order.
  rewrite (RunE_all _ _ _ Hl). reflexivity.
Qed.

Lemma range_order_NoDup installed order : range_order installed order -> NoDup order.
Proof.
  unfold range_order. intros H. rewrite H. apply NoDup_fst_map_to_list.
Qed.

Lemma range_order_In installed order name :
  range_order installed order -> In name order <-> is_Some (installed !! name).
Proof.
  unfold range_order. intros H. rewrite <- list_elem_of_In, H, list_elem_of_fmap.
  split.
  - intros ([n r] & -> & Hin). apply elem_of_map_to_list in Hin. cbn. eauto.
  - intros [r Hr]. exists (name, r). split; [reflexivity|].
    apply elem_of_map_to_list. exact Hr.
Qed.

(** X13: an all-plugins run takes up installed plugins only, and none
    twice; a run that returns nil has taken up every installed plugin. *)
Theorem all_plugins_run_covers_installed (order : list string) (w : World)
  (installed : gmap string Receipt) :
  ListInstalledPlugins w = (installed, None) ->
  range_order installed order ->
  NoDup (loaded (trace (RunE order w []).1))
  /\ (forall name, In name (loaded (trace (RunE order w []).1)) ->
                   is_Some (installed !! name))
  /\ ((RunE order w []).2 = None ->
      forall name, is_Some (installed !! name) ->
                   In name (loaded (trace (RunE order w []).1))).
Proof.
  intros Hl Ho. rewrite (RunE_all _ _ _ Hl).
  destruct (rangeLoop allMode order _) as [s' r] eqn:Hr.
  destruct (rangeLoop_trace _ _ _ _ _ Hr) as (tl & Ht & _ & Hp & Hn).
  assert (Hld : loaded (trace s') = loaded tl).
  { rewrite Ht, loaded_app. reflexivity. }
  assert (Hfin : loaded (trace (match r with
                                | Some err => (s', Some err)
                                | None => finish s'
                                end).1) = loaded tl).
  { destruct r as [err|]; [exact Hld|]. unfold finish.
    destruct (0 <? nErrors s'); cbn [fst]; [|exact Hld].
    unfold_states. rewrite loaded_snoc, app_nil_r. exact Hld. }
  rewrite Hfin. destruct Hp as [k Hk].
  pose proof (range_order_NoDup _ _ Ho) as Hnd. rewrite Hk in Hnd.
  apply NoDup_app in Hnd. destruct Hnd as (Hnd & _ & _).
  split; [exact Hnd|]. split.
  - intros name Hin. apply (range_order_In _ _ name Ho). rewrite Hk.
    apply in_or_app. left. exact Hin.
  - destruct r as [err|]; [discriminate|]. intros _ name Hs.
    rewrite (Hn eq_refl). apply (range_order_In _ _ name Ho). exact Hs.
Qed.

(** ** Explicit names: one run after another *)

Lemma loopBody_prepend tr mode name s :
  loopBody mode name (prepend tr s)
  = (prepend tr (loopBody mode name s).1, (loopBody mode name s).2).
Proof.
  assert (Hshift : forall e s0, emit e (prepend tr s0) = prepend tr (emit e s0)).
  { intros e s0. unfold emit, prepend. cbn [world nErrors trace].
    rewrite <- app_assoc. reflexivity. }
  assert (Hcount : forall s0, count_error (prepend tr s0) = prepend tr (count_error s0))
    by reflexivity.
  assert (Hup : forall plugin w', after_upgrade name plugin w' (prepend tr s)
                                  = prepend tr (after_upgrade name plugin w' s)).
  { intros plugin w'. unfold after_upgrade. rewrite !Hshift. reflexivity. }
  destruct (LoadPluginByName (world s) name) as [plugin [e|]] eqn:Hl.
  - destruct (IsNotExist e) eqn:Hn.
    + destruct (skipErrors mode) eqn:Hs.
      * rewrite (loopBody_not_found_skipped mode name (prepend tr s) _ _ Hl Hn Hs),
          (loopBody_not_found_skipped _ _ _ _ _ Hl Hn Hs).
        cbn [fst snd]. rewrite Hshift, Hcount, Hshift. reflexivity.
      * rewrite (loopBody_not_found_fatal mode name (prepend tr s) _ _ Hl Hn Hs),
          (loopBody_not_found_fatal _ _ _ _ _ Hl Hn Hs).
        cbn [fst snd]. rewrite Hshift. reflexivity.
    + rewrite (loopBody_load_fault mode name (prepend tr s) _ _ Hl Hn),
        (loopBody_load_fault mode _ _ _ _ Hl Hn).
      cbn [fst snd]. rewrite Hshift. reflexivity.
  - destruct (Upgrade (world s) plugin) as [w' [e|]] eqn:Hu.
    + destruct (ignoreUpgraded mode && isAlreadyUpgraded e) eqn:Hi.
      * rewrite (loopBody_already_skipped mode name (prepend tr s) _ _ _ Hl Hu Hi),
          (loopBody_already_skipped _ _ _ _ _ _ Hl Hu Hi).
        cbn [fst snd]. rewrite Hup, Hshift. reflexivity.
      * destruct (skipErrors mode) eqn:Hs.
        -- rewrite (loopBody_failed_skipped mode name (prepend tr s) _ _ _ Hl Hu Hi Hs),
             (loopBody_failed_skipped _ _ _ _ _ _ Hl Hu Hi Hs).
           cbn [fst snd]. rewrite Hup, Hcount, Hshift. reflexivity.
        -- rewrite (loopBody_failed_fatal mode name (prepend tr s) _ _ _ Hl Hu Hi Hs),
             (loopBody_failed_fatal _ _ _ _ _ _ Hl Hu Hi Hs).
           cbn [fst snd]. rewrite Hup, Hcount. reflexivity.
    + rewrite (loopBody_upgraded mode name (prepend tr s) _ _ Hl Hu),
        (loopBody_upgraded mode _ _ _ _ Hl Hu).
      cbn [fst snd]. rewrite Hup, !Hshift. reflexivity.
Qed.

Lemma rangeLoop_prepend tr mode names s :
  rangeLoop mode names (prepend tr s)
  = (prepend tr (rangeLoop mode names s).1, (rangeLoop mode names s).2).
Proof.
  revert s. induction names as [|name rest IH]; intros s; simpl.
  - reflexivity.
  - rewrite loopBody_prepend. destruct (loopBody mode name s) as [s1 [|err]]; cbn [fst snd].
    + apply IH.
    + reflexivity.
Qed.

(** X9: with explicit names, when the run over a first list of names
    returns nil, the run over that list followed by a second one is the
    run over the second list in the world the first run left, its trace
    following that of the first run. *)
Theorem explicit_run_composes (order : list string) (w : World)
  (args1 args2 : list string) (s1 : St) :
  args1 <> [] ->
  args2 <> [] ->
  RunE order w args1 = (s1, None) ->
  RunE order w (args1 ++ args2)
  = (prepend (trace s1) (RunE order (world s1) args2).1,
     (RunE order (world s1) args2).2).
Proof.
  intros H1 H2 Hrun.
  destruct (RunE_explicit_nil order w args1 H1) as (Hloop & Hc & _);
    [rewrite Hrun; reflexivity|].
  rewrite Hrun in Hloop, Hc. cbn [fst] in Hc.
  assert (Hs1 : s1 = prepend (trace s1) (init (world s1))).
  { destruct s1 as [w1 n1 t1]. cbn in Hc. subst n1. unfold prepend, init.
    cbn [world nErrors trace]. rewrite app_nil_r. reflexivity. }
  rewrite (RunE_explicit order w (args1 ++ args2))
    by (destruct args1; [contradiction|discriminate]).
  rewrite (RunE_explicit order (world s1) args2 H2).
  rewrite (rangeLoop_reach _ _ _ _ _ (eq_sym Hloop)).
  rewrite Hs1 at 1. rewrite rangeLoop_prepend.
  destruct (rangeLoop explicitMode args2 (init (world s1))) as [s2 [err|]];
    cbn [fst snd]; [reflexivity|].
  unfold finish. cbn [prepend nErrors]. destruct (0 <? nErrors s2); cbn [fst snd];
    [|reflexivity].
  unfold emit, prepend. cbn [world nErrors trace]. rewrite <- app_assoc. reflexivity.
Qed.

End Accounting.

(** ** These properties at runs in the small world *)

Section MoreRuns.

#[local] Existing Instance Demo.env.

(** Nothing is installed. *)
Definition w_none : Demo.state :=
  {| Demo.index := Demo.index Demo.w0; Demo.receipts := ∅ |}.

(** The small world with a receipts directory that cannot be read. *)
Definition unreadable_receipts : Env := {|
  World := Demo.state;
  Receipt := nat;
  Plugin := Demo.manifest;
  Name := Demo.m_name;
  ListInstalledPlugins :=
    fun w => (Demo.receipts w, Some (ExtError false "open receipts: permission denied"));
  LoadPluginByName := Demo.load;
  Upgrade := Demo.upgrade;
  already_upgraded_text := "can't upgrade, the newest version is already installed";
  Quote := fun s => Demo.dq +:+ s +:+ Demo.dq;
|}.

Lemma two_names_fit : Z.of_nat (length ["a"; "b"]) <= GoInt.max_int.
Proof. vm_compute. discriminate. Qed.

Lemma enumeration_failure_stops_before_any_plugin_witness :
  ListInstalledPlugins (Env:=unreadable_receipts) Demo.w0
  = (Demo.receipts Demo.w0, Some (ExtError false "open receipts: permission denied"))
  /\ Error (E:=unreadable_receipts)
       (Wrapf (ExtError false "open receipts: permission denied")
          "failed to find all installed versions")
     = "failed to find all installed versions: open receipts: permission denied".
Proof.
  assert (H : ListInstalledPlugins (Env:=unreadable_receipts) Demo.w0
              = (Demo.receipts Demo.w0,
                 Some (ExtError false "open receipts: permission denied")))
    by reflexivity.
  split; [exact H|].
  exact (proj2 (enumeration_failure_stops_before_any_plugin (E:=unreadable_receipts)
                  ["a"; "b"] Demo.w0 (Demo.receipts Demo.w0) _ H)).
Defined.

Lemma nothing_installed_nothing_done_witness :
  ListInstalledPlugins w_none = (∅, None)
  /\ range_order (∅ : gmap string nat) []
  /\ RunE [] w_none []
     = ({| world := w_none; nErrors := 0; trace := [CallListInstalledPlugins] |}, None).
Proof.
  assert (H1 : ListInstalledPlugins w_none = (∅, None)) by reflexivity.
  assert (H2 : range_order (∅ : gmap string nat) []) by (vm_compute; constructor).
  split; [exact H1|]. split; [exact H2|].
  exact (nothing_installed_nothing_done (E:=Demo.env) [] w_none H1 H2).
Defined.

Lemma counter_is_bounded_by_names_taken_up_witness :
  Z.of_nat (length ["a"; "b"]) <= GoInt.max_int
  /\ Z.of_nat (length (@nil string)) <= GoInt.max_int
  /\ 0 <= nErrors (RunE ["a"; "b"] Demo.w_ab []).1
          <= Z.of_nat (length (loaded (trace (RunE ["a"; "b"] Demo.w_ab []).1))).
Proof.
  assert (H2 : Z.of_nat (length (@nil string)) <= GoInt.max_int)
    by (vm_compute; discriminate).
  split; [exact two_names_fit|]. split; [exact H2|].
  exact (counter_is_bounded_by_names_taken_up (E:=Demo.env) ["a"; "b"] Demo.w_ab []
           two_names_fit H2).
Defined.

Lemma all_plugins_counter_is_warning_lines_witness :
  Z.of_nat (length ["a"; "b"]) <= GoInt.max_int
  /\ nErrors (RunE ["a"; "b"] Demo.w_ab []).1
     = Z.of_nat (count_lines is_warning (trace (RunE ["a"; "b"] Demo.w_ab []).1)).
Proof.
  split; [exact two_names_fit|].
  exact (all_plugins_counter_is_warning_lines (E:=Demo.env) ["a"; "b"] Demo.w_ab
           two_names_fit).
Defined.

Lemma summary_iff_warning_line_witness :
  Z.of_nat (length ["a"; "b"]) <= GoInt.max_int
  /\ (RunE ["a"; "b"] Demo.w_ab []).2 = None
  /\ (0 < count_lines is_warning (trace (RunE ["a"; "b"] Demo.w_ab []).1))%nat
  /\ In (Stderr msg_summary) (trace (RunE ["a"; "b"] Demo.w_ab []).1).
Proof.
  assert (H : (RunE ["a"; "b"] Demo.w_ab []).2 = None) by (vm_compute; reflexivity).
  assert (Hw : (0 < count_lines is_warning (trace (RunE ["a"; "b"] Demo.w_ab []).1))%nat)
    by (vm_compute; constructor).
  split; [exact two_names_fit|]. split; [exact H|]. split; [exact Hw|].
  exact (proj2 (summary_iff_warning_line (E:=Demo.env) ["a"; "b"] Demo.w_ab []
                  two_names_fit H) Hw).
Defined.

Lemma explicit_run_writes_only_progress_lines_witness :
  ["foo"; "bar"] <> []
  /\ Forall (fun line =>
               exists name,
                 In name ["foo"; "bar"]
                 /\ (line = "Upgrading plugin: " +:+ name +:+ nl
                     \/ line = "Upgraded plugin: " +:+ name +:+ nl))
            (stderr (trace (RunE [] Demo.w0 ["foo"; "bar"]).1)).
Proof.
  assert (H : ["foo"; "bar"] <> []) by discriminate.
  split; [exact H|].
  exact (explicit_run_writes_only_progress_lines (E:=Demo.env) [] Demo.w0
           ["foo"; "bar"] H).
Defined.

Lemma explicit_error_names_last_argument_taken_up_witness :
  ["foo"; "bar"] <> []
  /\ (RunE [] Demo.w0 ["foo"; "bar"]).2
     = Some (Errorf ("plugin " +:+ Demo.dq +:+ "bar" +:+ Demo.dq
                     +:+ " does not exist in the plugin index"))
  /\ exists name,
       In name ["foo"; "bar"]
       /\ last (loaded (trace (RunE [] Demo.w0 ["foo"; "bar"]).1)) = Some name.
Proof.
  assert (H1 : ["foo"; "bar"] <> []) by discriminate.
  assert (H2 : (RunE [] Demo.w0 ["foo"; "bar"]).2
               = Some (Errorf ("plugin " +:+ Demo.dq +:+ "bar" +:+ Demo.dq
                               +:+ " does not exist in the plugin index")))
    by (vm_compute; reflexivity).
  split; [exact H1|]. split; [exact H2|].
  destruct (explicit_error_names_last_argument_taken_up (E:=Demo.env) [] Demo.w0
              ["foo"; "bar"] _ H1 H2) as (name & Hin & Hlast & _).
  exists name. split; [exact Hin | exact Hlast].
Defined.

Lemma one_outcome_line_per_name_witness :
  (RunE ["a"; "b"] Demo.w_ab []).2 = None
  /\ count_lines is_outcome (trace (RunE ["a"; "b"] Demo.w_ab []).1)
     = length (loaded (trace (RunE ["a"; "b"] Demo.w_ab []).1)).
Proof.
  assert (H : (RunE ["a"; "b"] Demo.w_ab []).2 = None) by (vm_compute; reflexivity).
  split; [exact H|].
  exact (one_outcome_line_per_name (E:=Demo.env) ["a"; "b"] Demo.w_ab [] H).
Defined.

Lemma all_plugins_run_covers_installed_witness :
  ListInstalledPlugins Demo.w_ab = (Demo.receipts Demo.w_ab, None)
  /\ range_order (Demo.receipts Demo.w_ab) ["b"; "a"]
  /\ NoDup (loaded (trace (RunE ["b"; "a"] Demo.w_ab []).1)).
Proof.
  assert (H : ListInstalledPlugins Demo.w_ab = (Demo.receipts Demo.w_ab, None))
    by reflexivity.
  split; [exact H|]. split; [exact range_order_b_a|].
  exact (proj1 (all_plugins_run_covers_installed (E:=Demo.env) ["b"; "a"] Demo.w_ab
                  (Demo.receipts Demo.w_ab) H range_order_b_a)).
Defined.

(** [upgrade foo] then [upgrade b], and [upgrade foo b]. *)
Lemma explicit_run_composes_witness :
  ["foo"] <> [] /\ ["b"] <> []
  /\ RunE [] Demo.w0 ["foo"] = (after_foo, None)
  /\ trace (RunE [] Demo.w0 ["foo"; "b"]).1
     = trace after_foo ++ trace (RunE [] (world after_foo) ["b"]).1.
Proof.
  assert (H1 : ["foo"] <> []) by discriminate.
  assert (H2 : ["b"] <> []) by discriminate.
  assert (H3 : RunE [] Demo.w0 ["foo"] = (after_foo, None)) by (vm_compute; reflexivity).
  split; [exact H1|]. split; [exact H2|]. split; [exact H3|].
  exact (f_equal (fun r => trace r.1)
           (explicit_run_composes (E:=Demo.env) [] Demo.w0 ["foo"] ["b"] after_foo
              H1 H2 H3)).
Defined.

End MoreRuns.
